(** * gesture_f: gesture-driven text particle cloud

    A shallow embedding of the three algorithmic pieces of the repository:

    - [App.predictWebcam]              (src/App.tsx): the gesture interpreter,
    - [TextUtils.generateTextParticles] (utils/textUtils): the text rasterizer,
    - [ParticleSystem.useFrame]        (components/ParticleSystem): the
      per-frame particle simulation.

    Numbers.  A JavaScript [number] is modelled as a real ([R]); rounding,
    infinities and NaN of IEEE-754 binary64 (and the binary32 storage of
    [Float32Array]) are outside the model.  Quantities that the source keeps
    integral (pixel coordinates, array indices, finger counts, the mode) are
    [nat] or [Z]; the font size handed to the rasterizer is a rational ([Q])
    so that the pixel scan stays executable. *)

From Stdlib Require Import Reals Lra Lia List ZArith Bool.
From Stdlib Require Import QArith Qround Qreals.
From Stdlib Require Import Sorted FinFun.
From Stdlib Require String.
Import ListNotations.

Local Open Scope R_scope.

(** ** JavaScript helpers *)

Module JS.

(** [a < b] on numbers, as a boolean. *)
Definition ltb (a b : R) : bool := if Rlt_dec a b then true else false.

(** [a !== b] on numbers. *)
Definition neqb (a b : R) : bool := if Req_dec_T a b then false else true.

(** [v || d] on a number: [0] is falsy. *)
Definition orElse (v d : R) : R := if Req_dec_T v 0 then d else v.

(** [Math.min], [Math.max]. *)
Definition min (a b : R) : R := Rmin a b.
Definition max (a b : R) : R := Rmax a b.

(** A write [buf[i] = v] into an array of fixed size (a typed array, or an
    array that is only written inside its bounds): out of range it is
    ignored. *)
Fixpoint store {A : Type} (buf : list A) (i : nat) (v : A) : list A :=
  match buf, i with
  | [], _ => []
  | _ :: t, O => v :: t
  | h :: t, S k => h :: store t k v
  end.

(** [for (let i = start; i < start + n; i++) body], where the body may
    throw ([None]). *)
Fixpoint forLoop {St : Type} (body : nat -> St -> option St) (i n : nat)
  (s : St) : option St :=
  match n with
  | O => Some s
  | S k =>
      match body i s with
      | Some s' => forLoop body (S i) k s'
      | None => None
      end
  end.

(** The conversion of a number to an integer where a DOM call takes a
    [long]: the fraction is dropped, towards zero, and the integer is taken
    modulo 2^32 into the signed 32-bit range. *)
Definition toLong (q : Q) : Z :=
  let t := Z.quot (Qnum q) (Z.pos (Qden q)) in
  ((t + 2147483648) mod 4294967296 - 2147483648)%Z.

(** A read [buf[i]] of a [Float32Array]; the default stands for a read out
    of range. *)
Definition load (buf : list R) (i : nat) : R := nth i buf 0.

End JS.

(** ** The hand-tracking collaborator (@mediapipe/tasks-vision) *)

Module MediaPipe.

Record NormalizedLandmark : Type := { x : R; y : R; z : R }.

(** One detected hand: [landmarks[i]].  The tracker delivers 21 landmarks per
    hand, so indexing by the fixed indices of the source is total. *)
Definition Hand : Type := nat -> NormalizedLandmark.

(** [results.landmarks]: absent, or the list of detected hands. *)
Definition Results : Type := option (list Hand).

End MediaPipe.

(** ** src/App.tsx: the gesture interpreter *)

Module App.
Import MediaPipe.

(** The React state of [App] that reaches the 3D scene, with the ref that
    remembers the last processed video time. *)
Record State : Type := {
  targetMode : Z;
  dispersionFactor : R;
  activeHandCount : nat;
  lastVideoTimeRef : R
}.

(** [useState(1)], [useState(0)], [useState(0)], [useRef(-1)]. *)
Definition initialState : State :=
  {| targetMode := 1; dispersionFactor := 0; activeHandCount := 0;
     lastVideoTimeRef := -1 |}.

(** The props handed to [<ParticleSystem mode dispersion hasHand />]. *)
Record Props : Type := { mode : Z; dispersion : R; hasHand : bool }.

Definition props (s : State) : Props :=
  {| mode := targetMode s; dispersion := dispersionFactor s;
     hasHand := (0 <? activeHandCount s)%nat |}.

Section Gesture.
Variable landmarks : Hand.

Definition isFingerUp (tipIdx pipIdx : nat) : bool :=
  JS.ltb (y (landmarks tipIdx)) (y (landmarks pipIdx)).

Definition indexUp : bool := isFingerUp 8 6.
Definition middleUp : bool := isFingerUp 12 10.
Definition ringUp : bool := isFingerUp 16 14.
Definition pinkyUp : bool := isFingerUp 20 18.

(** [let count = 0; if (indexUp) count++; ...] *)
Definition fingerCount : nat :=
  let count := 0%nat in
  let count := if indexUp then S count else count in
  let count := if middleUp then S count else count in
  let count := if ringUp then S count else count in
  let count := if pinkyUp then S count else count in
  count.

(** The three-way [if] on [count]; no branch is taken for [count = 0]. *)
Definition selectMode (count : nat) (previous : Z) : Z :=
  if (count =? 1)%nat then 1%Z
  else if (count =? 2)%nat then 2%Z
  else if (3 <=? count)%nat then 3%Z
  else previous.

Definition tips : list nat := [4; 8; 12; 16; 20]%nat.

(** One round of the [tips.forEach] body. *)
Definition addTipDist (totalDist : R) (idx : nat) : R :=
  let wrist := landmarks 0%nat in
  let dx := x (landmarks idx) - x wrist in
  let dy := y (landmarks idx) - y wrist in
  totalDist + sqrt (dx * dx + dy * dy).

Definition avgSpread : R := fold_left addTipDist tips 0 / 5.

Definition spreadNorm : R := JS.min (JS.max ((avgSpread - 0.15) * 4) 0) 1.

End Gesture.

(** What one call of [predictWebcam] sees of the outside world. *)
Record Frame : Type := {
  refsReady : bool;          (* landmarker, video and canvas refs are set *)
  currentTime : R;           (* video.currentTime *)
  detect : Results           (* detectForVideo(...).landmarks *)
}.

(** The branch taken when at least one hand is detected. *)
Definition onHands (hands : list Hand) (first : Hand) (s : State) : State :=
  {| targetMode := selectMode (fingerCount first) (targetMode s);
     dispersionFactor := spreadNorm first;
     activeHandCount := length hands;
     lastVideoTimeRef := lastVideoTimeRef s |}.

(** The [else] branch: no hand. *)
Definition onNoHand (s : State) : State :=
  {| targetMode := targetMode s;
     dispersionFactor := 0.1;
     activeHandCount := 0;
     lastVideoTimeRef := lastVideoTimeRef s |}.

Definition interpret (r : Results) (s : State) : State :=
  match r with
  | Some (first :: rest) => onHands (first :: rest) first s
  | Some [] | None => onNoHand s
  end.

Definition predictWebcam (f : Frame) (s : State) : State :=
  if negb (refsReady f) then s
  else if JS.neqb (lastVideoTimeRef s) (currentTime f) then
    interpret (detect f)
      {| targetMode := targetMode s; dispersionFactor := dispersionFactor s;
         activeHandCount := activeHandCount s;
         lastVideoTimeRef := currentTime f |}
  else s.

(** The state after a run of animation frames, oldest first. *)
Definition run (fs : list Frame) (s : State) : State :=
  fold_left (fun st f => predictWebcam f st) fs s.

(** A frame that is processed: refs set and a new video time. *)
Definition fresh (f : Frame) (s : State) : Prop :=
  refsReady f = true /\ lastVideoTimeRef s <> currentTime f.

End App.

(** ** The vector and colour classes of three.js *)

Module THREE.

Record Vector3 : Type := { x : R; y : R; z : R }.

(** [new THREE.Vector3()] *)
Definition origin : Vector3 := {| x := 0; y := 0; z := 0 |}.

Definition add (a b : Vector3) : Vector3 :=
  {| x := x a + x b; y := y a + y b; z := z a + z b |}.

Definition sub (a b : Vector3) : Vector3 :=
  {| x := x a - x b; y := y a - y b; z := z a - z b |}.

Definition multiplyScalar (a : Vector3) (s : R) : Vector3 :=
  {| x := x a * s; y := y a * s; z := z a * s |}.

Definition divideScalar (a : Vector3) (s : R) : Vector3 :=
  multiplyScalar a (1 / s).

Definition length (a : Vector3) : R :=
  sqrt (x a * x a + y a * y a + z a * z a).

(** [normalize()] is [divideScalar(length() || 1)]. *)
Definition normalize (a : Vector3) : Vector3 :=
  divideScalar a (JS.orElse (length a) 1).

Record Color : Type := { r : R; g : R; b : R }.

(** [new THREE.Color("#rrggbb")], each channel a byte over 255.  (The
    conversion to the linear working colour space of recent three.js
    releases is left out; it fixes 0 and 1 and maps [0,1] into itself.) *)
Definition hex (rr gg bb : Z) : Color :=
  {| r := IZR rr / 255; g := IZR gg / 255; b := IZR bb / 255 |}.

End THREE.

(** ** utils/textUtils: the text rasterizer *)

Module TextUtils.
Import THREE.

(** The 2D drawing context of the offscreen canvas, reduced to what the
    rasterizer reads back: the measured width of a text at a font size, and
    the RGBA bytes of a bitmap that has pixels, of the given width and
    height, after the text has been drawn centred on it ([None] when the
    canvas throws for a reason of its own). *)
Record Context2D : Type := {
  measureText : String.string -> Q -> Q;
  readBitmap : String.string -> Q -> Z -> Q -> option (list Z)
}.

(** [ctx.getImageData(0, 0, width, height).data].  The call throws an
    IndexSizeError ([None]) when the width or the height, taken as an
    integer, is 0: a bitmap without pixels cannot be read. *)
Definition getImageData (c : Context2D) (text : String.string) (size : Q)
  (width : Z) (height : Q) : option (list Z) :=
  if (JS.toLong (inject_Z width) =? 0)%Z || (JS.toLong height =? 0)%Z
  then None
  else readBitmap c text size width height.

Record Pixel : Type := { px : Z; py : Z }.

Section Scan.
Variable data : list Z.
Variable width : Z.
Variable height : Q.

(** [data[index + 3] > 128]; a read out of range is [undefined]. *)
Definition opaque (xx yy : Z) : bool :=
  let index := ((yy * width + xx) * 4)%Z in
  match nth_error data (Z.to_nat (index + 3)) with
  | Some alpha => (128 <? alpha)%Z
  | None => false
  end.

(** [for (let x = 0; x < width; x += 2)], from column [xx] on. *)
Fixpoint scanRow (fuel : nat) (yy xx : Z) (validPixels : list Pixel)
  : list Pixel :=
  match fuel with
  | O => validPixels
  | S k =>
      if (xx <? width)%Z then
        scanRow k yy (xx + 2)%Z
          (if opaque xx yy then validPixels ++ [{| px := xx; py := yy |}]
           else validPixels)
      else validPixels
  end.

(** [y < height] for an integral [y]. *)
Definition below (yy : Z) : bool := negb (Qle_bool height (inject_Z yy)).

(** [for (let y = 0; y < height; y += 2)], from row [yy] on. *)
Fixpoint scanRows (fuel : nat) (yy : Z) (validPixels : list Pixel)
  : list Pixel :=
  match fuel with
  | O => validPixels
  | S k =>
      if below yy then
        scanRows k (yy + 2)%Z (scanRow (Z.to_nat width) yy 0%Z validPixels)
      else validPixels
  end.

(** The whole scan; neither loop can outlive these bounds. *)
Definition collectValidPixels : list Pixel :=
  scanRows (Z.to_nat (Qceiling height)) 0%Z [].

(** The body of the sampling loop for index [i]. *)
Definition samplePoint (validPixels : list Pixel) (i : nat) : Vector3 :=
  let cx := IZR width / 2 in
  let cy := Q2R height / 2 in
  let pixel :=
    nth (i mod List.length validPixels) validPixels {| px := 0; py := 0 |} in
  let scale := 0.15 in
  let xw := (IZR (px pixel) - cx) * scale in
  let yw := - (IZR (py pixel) - cy) * scale in
  {| x := xw; y := yw; z := 0 |}.

(** [for (let i = 0; i < particleCount; i++) points.push(...)], with [n]
    rounds left. *)
Fixpoint sampleLoop (validPixels : list Pixel) (n i : nat)
  (points : list Vector3) : list Vector3 :=
  match n with
  | O => points
  | S k =>
      sampleLoop validPixels k (S i) (points ++ [samplePoint validPixels i])
  end.

End Scan.

(** The points returned, or [None] when the call throws: nothing catches
    the error of [getImageData]. *)
Definition generateTextParticles (ctx : option Context2D)
  (text : String.string) (size : Q) (particleCount : nat)
  : option (list Vector3) :=
  match ctx with
  | None => Some []
  | Some c =>
      let width := Qceiling (measureText c text size) in
      let height := (size * (3 # 2))%Q in
      match getImageData c text size width height with
      | None => None
      | Some data =>
          let validPixels := collectValidPixels data width height in
          if (List.length validPixels =? 0)%nat then Some []
          else Some (sampleLoop width height validPixels particleCount 0 [])
      end
  end.

(** The rule of the specification, in its own words: translate so that the
    centre of the bitmap goes to the origin, flip the vertical axis, scale
    both axes by 0.15, and put the point in the plane [z = 0]. *)
Definition centerFlipScale (width : Z) (height : Q) (p : Pixel) : Vector3 :=
  let centerX := IZR width / 2 in
  let centerY := Q2R height / 2 in
  {| x := 0.15 * (IZR (px p) - centerX);
     y := 0.15 * - (IZR (py p) - centerY);
     z := 0 |}.

End TextUtils.

(** ** components/ParticleSystem: the per-frame simulation *)

Module ParticleSystem.
Import THREE.

Definition PARTICLE_COUNT : nat := 4000.

Record Particle : Type := {
  position : Vector3;
  velocity : Vector3;
  targetIndex : nat
}.

(** What [useFrame] mutates: the particle array, the two flat attribute
    buffers and the rotation of the mesh. *)
Record Scene : Type := {
  particles : list Particle;
  positions : list R;
  colors : list R;
  rotationY : R
}.

(** [targets.current]: the point sets computed so far, keyed by mode. *)
Definition Targets : Type := Z -> option (list Vector3).

(** The particle array of [useMemo]; [random i] is the start position drawn
    for particle [i]. *)
Definition initParticles (random : nat -> Vector3) : list Particle :=
  map (fun i => {| position := random i; velocity := origin; targetIndex := i |})
      (seq 0 PARTICLE_COUNT).

(** [new Float32Array(n)]: [n] zeros. *)
Definition newFloat32Array (n : nat) : list R := repeat 0 n.

(** The scene before the first frame. *)
Definition initialScene (random : nat -> Vector3) : Scene :=
  {| particles := initParticles random;
     positions := newFloat32Array (PARTICLE_COUNT * 3);
     colors := newFloat32Array (PARTICLE_COUNT * 3);
     rotationY := 0 |}.

Definition color1 : Color := hex 0 255 255.
Definition color2 : Color := hex 255 0 255.
Definition color3 : Color := hex 255 255 0.
Definition colorIdle : Color := hex 68 68 68.

Section Frame.
Variable mode : Z.
Variable dispersion : R.
Variable hasHand : bool.
Variable time : R.
Variable targets : Targets.

(** [targets.current[mode] || []] *)
Definition currentTargets : list Vector3 :=
  match targets mode with
  | Some pts => pts
  | None => []
  end.

Definition hasTargets : bool := (0 <? List.length currentTargets)%nat.

(** The three [if]s on [mode], in order. *)
Definition targetColor : Color :=
  let targetColor := colorIdle in
  if hasHand then
    let targetColor := if (mode =? 1)%Z then color1 else targetColor in
    let targetColor := if (mode =? 2)%Z then color2 else targetColor in
    let targetColor := if (mode =? 3)%Z then color3 else targetColor in
    targetColor
  else targetColor.

(** 1. Determine Target Position *)
Definition targetVec (i : nat) : Vector3 :=
  if hasHand && hasTargets then
    let targetPoint :=
      nth (i mod List.length currentTargets) currentTargets origin in
    let targetVec := targetPoint in
    if JS.ltb 0.1 dispersion then
      let noiseX := sin (INR i * 0.1 + time) * 10 * dispersion in
      let noiseY := cos (INR i * 0.13 + time) * 10 * dispersion in
      let noiseZ := sin (INR i * 0.15 + time) * 15 * dispersion in
      add targetVec {| x := noiseX; y := noiseY; z := noiseZ |}
    else targetVec
  else
    let radius := 10 in
    let theta := INR i / INR PARTICLE_COUNT * PI * 2 + time * 0.1 in
    let phi := INR (i mod 100) / 100 * PI in
    {| x := sin theta * radius * sin phi;
       y := cos theta * radius;
       z := cos phi * radius * sin theta |}.

(** 2. Physics Update (steering behaviour: seek) *)
Definition physics (target : Vector3) (p : Particle) : Particle :=
  let force := sub target (position p) in
  let dist := length force in
  let maxSpeed := 0.5 + dispersion * 1.5 in
  let force :=
    multiplyScalar (normalize force) (JS.min (dist * 0.1) maxSpeed) in
  let velocity := multiplyScalar (add (velocity p) force) 0.92 in
  let position := add (position p) velocity in
  {| position := position; velocity := velocity;
     targetIndex := targetIndex p |}.

(** 4. Color Update: [colors[k] += (target - colors[k]) * 0.05] *)
Definition lerpChannel (buf : list R) (k : nat) (target : R) : list R :=
  JS.store buf k (JS.load buf k + (target - JS.load buf k) * 0.05).

(** The body of the animation loop for particle [i]; reading a particle
    that is not there throws. *)
Definition animate (i : nat) (s : Scene) : option Scene :=
  match nth_error (particles s) i with
  | None => None
  | Some p =>
      let p := physics (targetVec i) p in
      let positions := JS.store (positions s) (i * 3) (x (position p)) in
      let positions := JS.store positions (i * 3 + 1) (y (position p)) in
      let positions := JS.store positions (i * 3 + 2) (z (position p)) in
      let rIndex := (i * 3)%nat in
      let gIndex := (i * 3 + 1)%nat in
      let bIndex := (i * 3 + 2)%nat in
      let colors := lerpChannel (colors s) rIndex (r targetColor) in
      let colors := lerpChannel colors gIndex (g targetColor) in
      let colors := lerpChannel colors bIndex (b targetColor) in
      Some {| particles := JS.store (particles s) i p;
              positions := positions;
              colors := colors;
              rotationY := rotationY s |}
  end.

(** The callback of [useFrame]; [meshMounted] is [meshRef.current]
    being set. *)
Definition useFrame (meshMounted : bool) (s : Scene) : option Scene :=
  if negb meshMounted then Some s
  else
    match JS.forLoop animate 0 PARTICLE_COUNT s with
    | Some s' =>
        Some {| particles := particles s'; positions := positions s';
                colors := colors s'; rotationY := time * 0.05 |}
    | None => None
    end.

End Frame.

(** The particle of index [i] followed over [n] frames towards one fixed
    target point. *)
Fixpoint seekFor (dispersion : R) (target : Vector3) (n : nat) (p : Particle)
  : Particle :=
  match n with
  | O => p
  | S k => physics dispersion target (seekFor dispersion target k p)
  end.

(** Distance from a particle to a point. *)
Definition distanceTo (target : Vector3) (p : Particle) : R :=
  length (sub target (position p)).

End ParticleSystem.

(** ** The vocabulary of the specification *)

Module Wording.
Import MediaPipe App.

(** The wording of the specification for the finger test, the spread and
    the clamp. *)
Definition fingerIsUp (h : Hand) (tip pip : nat) : Prop :=
  y (h tip) < y (h pip).

Definition nonThumbFingers : list (nat * nat) :=
  [(8, 6); (12, 10); (16, 14); (20, 18)]%nat.

Definition extendedCount (h : Hand) : nat :=
  List.length
    (filter (fun f => if Rlt_dec (y (h (fst f))) (y (h (snd f))) then true else false)
            nonThumbFingers).

Definition euclid (a b : NormalizedLandmark) : R :=
  sqrt ((x a - x b) * (x a - x b) + (y a - y b) * (y a - y b)).

Definition spread (h : Hand) : R :=
  (euclid (h 4%nat) (h 0%nat) + euclid (h 8%nat) (h 0%nat)
   + euclid (h 12%nat) (h 0%nat) + euclid (h 16%nat) (h 0%nat)
   + euclid (h 20%nat) (h 0%nat)) / 5.

Definition clamp (v lo hi : R) : R :=
  if Rlt_dec v lo then lo else if Rlt_dec hi v then hi else v.

(** The mode is one of the three text formations. *)
Definition textMode (m : Z) : Prop := m = 1%Z \/ m = 2%Z \/ m = 3%Z.

(** No hand is reported for the frame. *)
Definition noHand (f : Frame) : Prop := detect f = None \/ detect f = Some [].

(** A sample of the coarse grid of the bitmap: even coordinates inside the
    bitmap. *)
Definition onGrid (width : Z) (height : Q) (p : TextUtils.Pixel) : Prop :=
  (exists j, 0 <= j /\ TextUtils.px p = 2 * j)%Z
  /\ (exists k, 0 <= k /\ TextUtils.py p = 2 * k)%Z
  /\ (TextUtils.px p < width)%Z
  /\ (inject_Z (TextUtils.py p) < height)%Q.

(** The seek-with-arrival update of one particle, as the specification
    puts it: the force points from the position to the target and has
    magnitude min(dist * 0.1, maxSpeed); the velocity takes the force and
    is damped; the position takes the new velocity. *)
Definition seekUpdated (dispersion : R) (target : THREE.Vector3)
  (p p' : ParticleSystem.Particle) : Prop :=
  let toTarget := THREE.sub target (ParticleSystem.position p) in
  let dist := THREE.length toTarget in
  let maxSpeed := 0.5 + 1.5 * dispersion in
  let magnitude := Rmin (dist * 0.1) maxSpeed in
  exists force,
    (0 < dist -> force = THREE.multiplyScalar toTarget (magnitude / dist))
    /\ (dist = 0 -> force = THREE.origin)
    /\ (0 <= maxSpeed -> THREE.length force = magnitude)
    /\ ParticleSystem.velocity p'
       = THREE.multiplyScalar
           (THREE.add (ParticleSystem.velocity p) force) 0.92
    /\ ParticleSystem.position p'
       = THREE.add (ParticleSystem.position p) (ParticleSystem.velocity p')
    /\ ParticleSystem.targetIndex p' = ParticleSystem.targetIndex p.




(** The per-tick speed cap of the specification. *)
Definition speedCap (dispersion : R) : R := 0.5 + 1.5 * dispersion.

Definition dot (a b : THREE.Vector3) : R :=
  THREE.x a * THREE.x b + THREE.y a * THREE.y b + THREE.z a * THREE.z b.

(** Seen from where it started, the particle is beyond the target. *)
Definition passed (start target : THREE.Vector3)
  (p : ParticleSystem.Particle) : Prop :=
  dot (THREE.sub target (ParticleSystem.position p)) (THREE.sub target start)
  < 0.

(** The two halves of the approach property as the specification words it,
    for a particle [p0] steered toward [target]: the distance shrinks on
    every tick while the particle is further than [eps] from the target;
    a particle beyond the target is at most the speed cap beyond it. *)
Definition approachesUntil (eps dispersion : R) (target : THREE.Vector3)
  (p0 : ParticleSystem.Particle) : Prop :=
  forall n,
    eps < ParticleSystem.distanceTo target
            (ParticleSystem.seekFor dispersion target n p0) ->
    ParticleSystem.distanceTo target
      (ParticleSystem.seekFor dispersion target (S n) p0)
    < ParticleSystem.distanceTo target
        (ParticleSystem.seekFor dispersion target n p0).

Definition overshootWithinCap (dispersion : R) (target : THREE.Vector3)
  (p0 : ParticleSystem.Particle) : Prop :=
  forall n,
    passed (ParticleSystem.position p0) target
      (ParticleSystem.seekFor dispersion target n p0) ->
    ParticleSystem.distanceTo target
      (ParticleSystem.seekFor dispersion target n p0)
    <= speedCap dispersion.

(** The particle is on the line through the target with direction [D]:
    its offset to the target is [c] times [D], its velocity [w] times
    [D]. *)
Definition onLine (target D : THREE.Vector3) (cw : R * R)
  (p : ParticleSystem.Particle) : Prop :=
  ParticleSystem.position p
  = THREE.sub target (THREE.multiplyScalar D (fst cw))
  /\ ParticleSystem.velocity p = THREE.multiplyScalar D (snd cw).

(** The physics step in the coordinates [(c, w)] of such a line, [L] being
    the length of [D] and [ms] the speed cap. *)
Definition seek1 (L ms : R) (cw : R * R) : R * R :=
  let c := fst cw in
  let w := snd cw in
  let dist := Rabs c * L in
  let g := c * (1 / JS.orElse dist 1) * Rmin (dist * 0.1) ms in
  let w' := (w + g) * 0.92 in
  (c - w', w').

Fixpoint seek1For (L ms : R) (n : nat) (cw : R * R) : R * R :=
  match n with
  | O => cw
  | S k => seek1 L ms (seek1For L ms k cw)
  end.

(** Exponential smoothing of one colour channel. *)
Definition lerp (channel targetChannel : R) : R :=
  channel + (targetChannel - channel) * 0.05.

(** The channel after [n] rounds of smoothing from [c0] towards [t]. *)
Definition smoothed (n : nat) (c0 t : R) : R := t + 0.95 ^ n * (c0 - t).

End Wording.

(** ** What a pass of the animation loop leaves behind *)

Module FrameSpec.
Import THREE ParticleSystem Wording.

Section Pass.
Variable mode : Z.
Variable dispersion : R.
Variable hasHand : bool.
Variable time : R.
Variable targets : Targets.

Let tc : Color := targetColor mode hasHand.
Let tv (j : nat) : Vector3 := targetVec mode dispersion hasHand time targets j.

(** [s'] is [s] after the loop body has run for the particles
    [i .. i+n-1], each exactly once. *)
Record animated (i n : nat) (s s' : Scene) : Prop := {
  an_particles_len : List.length (particles s') = List.length (particles s);
  an_positions_len : List.length (positions s') = List.length (positions s);
  an_colors_len : List.length (colors s') = List.length (colors s);
  an_rotation : rotationY s' = rotationY s;
  an_particle_in : forall j p,
    (i <= j < i + n)%nat ->
    nth_error (particles s) j = Some p ->
    nth_error (particles s') j = Some (physics dispersion (tv j) p);
  an_particle_out : forall j,
    ~ (i <= j < i + n)%nat ->
    nth_error (particles s') j = nth_error (particles s) j;
  an_color_in : forall j,
    (i <= j < i + n)%nat ->
    JS.load (colors s') (j * 3) = lerp (JS.load (colors s) (j * 3)) (r tc)
    /\ JS.load (colors s') (j * 3 + 1)
       = lerp (JS.load (colors s) (j * 3 + 1)) (g tc)
    /\ JS.load (colors s') (j * 3 + 2)
       = lerp (JS.load (colors s) (j * 3 + 2)) (b tc);
  an_color_out : forall k,
    ~ (i * 3 <= k < (i + n) * 3)%nat ->
    JS.load (colors s') k = JS.load (colors s) k;
  an_position_in : forall j p,
    (i <= j < i + n)%nat ->
    nth_error (particles s') j = Some p ->
    JS.load (positions s') (j * 3) = x (position p)
    /\ JS.load (positions s') (j * 3 + 1) = y (position p)
    /\ JS.load (positions s') (j * 3 + 2) = z (position p);
  an_position_out : forall k,
    ~ (i * 3 <= k < (i + n) * 3)%nat ->
    JS.load (positions s') k = JS.load (positions s) k
}.

End Pass.

(** What changes from frame to frame besides the scene. *)
Record Tick : Type := {
  tickDispersion : R;
  tickTime : R;
  tickTargets : Targets
}.

(** Successive frames with the mesh mounted, under one mode and one
    hand-active flag, hence one target colour. *)
Fixpoint frames (mode : Z) (hasHand : bool) (ticks : list Tick) (s : Scene)
  : option Scene :=
  match ticks with
  | [] => Some s
  | t :: rest =>
      match useFrame mode (tickDispersion t) hasHand (tickTime t)
              (tickTargets t) true s with
      | Some s1 => frames mode hasHand rest s1
      | None => None
      end
  end.

(** The channel of a colour that slot [k] of the colour buffer holds. *)
Definition channelOf (c : Color) (k : nat) : R :=
  match (k mod 3)%nat with
  | 0%nat => r c
  | 1%nat => g c
  | _ => b c
  end.

(** A scene as the component builds it: [PARTICLE_COUNT] particles and
    three floats per particle in each buffer. *)
Definition wellFormed (s : Scene) : Prop :=
  List.length (particles s) = PARTICLE_COUNT
  /\ List.length (positions s) = (PARTICLE_COUNT * 3)%nat
  /\ List.length (colors s) = (PARTICLE_COUNT * 3)%nat.

End FrameSpec.

(** ** src/App.tsx: what the overlay shows of the control state *)

Module AppView.
Import App.

(** [clsx(targetMode === k && activeHandCount > 0 && "text-cyan-400 ...")]:
    the gesture entry [k] of the list is highlighted. *)
Definition gestureHighlighted (k : Z) (s : State) : bool :=
  (targetMode s =? k)%Z && (0 <? activeHandCount s)%nat.

(** [width: `${(1 - dispersionFactor) * 100}%`] of the contraction bar. *)
Definition barWidth (s : State) : R := (1 - dispersionFactor s) * 100.

End AppView.

(** ** src/App.tsx: loading the model and starting the camera *)

Module AppShell.
Import String.

(** [loading], [cameraActive], [error] of [App], and whether
    [handLandmarkerRef.current] is set. *)
Record Shell : Type := {
  loading : bool;
  cameraActive : bool;
  error : option string;
  landmarker : bool
}.

(** [useState(true)], [useState(false)], [useState(null)], [useRef(null)]. *)
Definition initialShell : Shell :=
  {| loading := true; cameraActive := false; error := None;
     landmarker := false |}.

(** [initMediaPipe]; [loaded] tells whether both awaits succeeded. *)
Definition initMediaPipe (loaded : bool) (s : Shell) : Shell :=
  if loaded then
    {| loading := false; cameraActive := cameraActive s; error := error s;
       landmarker := true |}
  else
    {| loading := false; cameraActive := cameraActive s;
       error := Some "Failed to load hand tracking model."%string;
       landmarker := landmarker s |}.

(** [startCamera]; [video] is [videoRef.current] being set, [granted]
    whether [getUserMedia] resolved. *)
Definition startCamera (video granted : bool) (s : Shell) : Shell :=
  if negb video then s
  else if granted then
    {| loading := loading s; cameraActive := true; error := error s;
       landmarker := landmarker s |}
  else
    {| loading := loading s; cameraActive := cameraActive s;
       error := Some "Camera access denied or unavailable."%string;
       landmarker := landmarker s |}.

Inductive Event : Type :=
| InitMediaPipe (loaded : bool)
| StartCamera (video granted : bool).

Definition handle (s : Shell) (e : Event) : Shell :=
  match e with
  | InitMediaPipe loaded => initMediaPipe loaded s
  | StartCamera video granted => startCamera video granted s
  end.

Definition after (es : list Event) (s : Shell) : Shell := fold_left handle es s.

(** What the overlay renders: the ENABLE CAMERA button, the loading
    notice, the error banner. *)
Definition showsButton (s : Shell) : bool :=
  negb (cameraActive s) && negb (loading s).

Definition showsLoading (s : Shell) : bool := loading s.

Definition showsError (s : Shell) : bool :=
  match error s with Some _ => true | None => false end.

End AppShell.

(** ** components/ParticleSystem: loading the text targets *)

Module TargetsEffect.
Import THREE ParticleSystem.
Import String.

Definition TEXT_1 : String.string := "Hello"%string.
Definition TEXT_2 : String.string := "Artificial Intelligence"%string.
Definition TEXT_3_SAFE : String.string :=
  "恭喜你打开了一个神奇的网页！"%string.

(** [useRef({})]: no point set yet. *)
Definition noTargets : Targets := fun _ => None.

(** [targets.current[k] = pts] *)
Definition assign (t : Targets) (k : Z) (pts : list Vector3) : Targets :=
  fun m => if (m =? k)%Z then Some pts else t m.

(** The body of the timer callback of [useEffect]; [ctx] is what
    [canvas.getContext('2d')] returns.  The result is [targets.current] when
    the callback is over: a call of the rasterizer that throws ends the
    callback, and the assignments made before it stay. *)
Definition loadTargets (ctx : option TextUtils.Context2D) : Targets :=
  let t := noTargets in
  match TextUtils.generateTextParticles ctx TEXT_1 80 PARTICLE_COUNT with
  | None => t
  | Some pts1 =>
      let t := assign t 1 pts1 in
      match TextUtils.generateTextParticles ctx TEXT_2 30 PARTICLE_COUNT with
      | None => t
      | Some pts2 =>
          let t := assign t 2 pts2 in
          match TextUtils.generateTextParticles ctx TEXT_3_SAFE 30
                  PARTICLE_COUNT with
          | None => t
          | Some pts3 => assign t 3 pts3
          end
      end
  end.

End TargetsEffect.

(** ** Further vocabulary *)

Module Vocabulary.
Import THREE ParticleSystem.

(** The same pose elsewhere in the image. *)
Definition shiftHand (a b : R) (h : MediaPipe.Hand) : MediaPipe.Hand :=
  fun i =>
    {| MediaPipe.x := MediaPipe.x (h i) + a;
       MediaPipe.y := MediaPipe.y (h i) + b;
       MediaPipe.z := MediaPipe.z (h i) |}.

(** The same pose [k] times as large in the image, the wrist staying where
    it is (the hand [k] times as close to the camera). *)
Definition scaleHand (k : R) (h : MediaPipe.Hand) : MediaPipe.Hand :=
  fun i =>
    {| MediaPipe.x :=
         MediaPipe.x (h 0%nat) + k * (MediaPipe.x (h i) - MediaPipe.x (h 0%nat));
       MediaPipe.y :=
         MediaPipe.y (h 0%nat) + k * (MediaPipe.y (h i) - MediaPipe.y (h 0%nat));
       MediaPipe.z := MediaPipe.z (h i) |}.

(** Scan order of the bitmap: row by row, left to right. *)
Definition scanBefore (p q : TextUtils.Pixel) : Prop :=
  (TextUtils.py p < TextUtils.py q)%Z
  \/ (TextUtils.py p = TextUtils.py q /\ TextUtils.px p < TextUtils.px q)%Z.

(** The particle moved by [t], with the velocity it has. *)
Definition shiftParticle (t : Vector3) (p : Particle) : Particle :=
  {| position := add (position p) t; velocity := velocity p;
     targetIndex := targetIndex p |}.

(** One call of the frame callback with everything it reads. *)
Record Call : Type := {
  callMode : Z;
  callDispersion : R;
  callHasHand : bool;
  callTime : R;
  callTargets : Targets;
  callMounted : bool
}.

Definition call (c : Call) (s : Scene) : option Scene :=
  useFrame (callMode c) (callDispersion c) (callHasHand c) (callTime c)
    (callTargets c) (callMounted c) s.

(** Successive calls of the frame callback, oldest first. *)
Fixpoint play (calls : list Call) (s : Scene) : option Scene :=
  match calls with
  | [] => Some s
  | c :: rest =>
      match call c s with
      | Some s1 => play rest s1
      | None => None
      end
  end.

(** The position buffer holds the positions of the particles. *)
Definition coherent (s : Scene) : Prop :=
  forall i p,
    nth_error (particles s) i = Some p ->
    JS.load (positions s) (i * 3) = x (position p)
    /\ JS.load (positions s) (i * 3 + 1) = y (position p)
    /\ JS.load (positions s) (i * 3 + 2) = z (position p).

End Vocabulary.

(** ** Sample inputs *)

Module Samples.
Import MediaPipe.

Definition lm (xx yy : R) : NormalizedLandmark := {| x := xx; y := yy; z := 0 |}.

(** Index and middle finger raised, ring and pinky curled. *)
Definition victoryHand : Hand := fun i =>
  match i with
  | 0 => lm 0.5 0.9
  | 4 => lm 0.5 0.8
  | 6 => lm 0.45 0.6 | 8 => lm 0.45 0.4
  | 10 => lm 0.5 0.6 | 12 => lm 0.5 0.4
  | 14 => lm 0.55 0.6 | 16 => lm 0.55 0.7
  | 18 => lm 0.6 0.65 | 20 => lm 0.6 0.75
  | _ => lm 0.5 0.7
  end%nat.

(** Index, middle and ring finger raised. *)
Definition threeHand : Hand := fun i =>
  match i with
  | 0 => lm 0.5 0.9
  | 6 => lm 0.45 0.6 | 8 => lm 0.45 0.4
  | 10 => lm 0.5 0.6 | 12 => lm 0.5 0.4
  | 14 => lm 0.55 0.6 | 16 => lm 0.55 0.4
  | 18 => lm 0.6 0.65 | 20 => lm 0.6 0.75
  | _ => lm 0.5 0.7
  end%nat.

(** Every landmark on the wrist: spread 0. *)
Definition pointHand : Hand := fun _ => lm 0.5 0.5.

(** A 3 x 3 bitmap whose corners (0,0) and (2,2) are opaque. *)
Definition cornerAlphas : list Z := [255; 0; 0; 0; 0; 0; 0; 0; 255]%Z.

Definition cornerContext : TextUtils.Context2D :=
  {| TextUtils.measureText := fun _ _ => (5 # 2)%Q;
     TextUtils.readBitmap := fun _ _ _ _ =>
       Some (flat_map (fun a => [255; 255; 255; a]%Z) cornerAlphas) |}.

(** The bytes [cornerContext] delivers. *)
Definition cornerData : list Z :=
  flat_map (fun a => [255; 255; 255; a]%Z) cornerAlphas.

(** A context in which every text measures 0 wide, as the empty text
    does. *)
Definition blankContext : TextUtils.Context2D :=
  {| TextUtils.measureText := fun _ _ => 0%Q;
     TextUtils.readBitmap := fun _ _ _ _ => Some [] |}.

(** A particle at rest in the origin, and the initial scene with every
    particle in the origin. *)
Definition restParticle : ParticleSystem.Particle :=
  {| ParticleSystem.position := THREE.origin;
     ParticleSystem.velocity := THREE.origin;
     ParticleSystem.targetIndex := 0 |}.

Definition restScene : ParticleSystem.Scene :=
  ParticleSystem.initialScene (fun _ => THREE.origin).

(** One target point for every mode. *)
Definition pointTarget : THREE.Vector3 :=
  {| THREE.x := 3; THREE.y := 4; THREE.z := 0 |}.

Definition pointTargets : ParticleSystem.Targets := fun _ => Some [pointTarget].

(** A particle at rest in the origin and a target 5 units away on the
    x axis. *)
Definition axisTarget : THREE.Vector3 :=
  {| THREE.x := 5; THREE.y := 0; THREE.z := 0 |}.

Definition axisRun (k : nat) : ParticleSystem.Particle :=
  ParticleSystem.seekFor 0 axisTarget k restParticle.

Definition calmTick : FrameSpec.Tick :=
  {| FrameSpec.tickDispersion := 0; FrameSpec.tickTime := 0;
     FrameSpec.tickTargets := pointTargets |}.

(** The victory pose with thumb and wrist somewhere else. *)
Definition victoryHandThumbOut : Hand := fun i =>
  match i with
  | 0 => lm 0.2 0.2
  | 4 => lm 0.1 0.1
  | _ => victoryHand i
  end%nat.

(** A mounted call with the hand open and the targets of the sample. *)
Definition openCall : Vocabulary.Call :=
  {| Vocabulary.callMode := 1; Vocabulary.callDispersion := 1;
     Vocabulary.callHasHand := true; Vocabulary.callTime := 0;
     Vocabulary.callTargets := pointTargets;
     Vocabulary.callMounted := true |}.

(** The initial scene with every particle but number 7 on the sample
    target. *)
Definition crowdedScene : ParticleSystem.Scene :=
  ParticleSystem.initialScene
    (fun i => if (i =? 7)%nat then THREE.origin else pointTarget).

Definition frameOf (t : R) (r : Results) : App.Frame :=
  {| App.refsReady := true; App.currentTime := t; App.detect := r |}.

End Samples.

(** * Properties *)

(** ** Facts on the JavaScript helpers *)

Module JSFacts.
Import JS.

Lemma ltb_true (a b : R) : ltb a b = true <-> a < b.
Proof. unfold ltb. destruct (Rlt_dec a b); split; intros; try discriminate; tauto. Qed.

Lemma ltb_false (a b : R) : ltb a b = false <-> b <= a.
Proof.
  unfold ltb. destruct (Rlt_dec a b); split; intros; try discriminate; lra || reflexivity.
Qed.

Lemma store_length {A : Type} (buf : list A) (i : nat) (v : A) :
  length (store buf i v) = length buf.
Proof.
  revert i. induction buf as [|h t IH]; intros [|k]; simpl; auto.
Qed.

Lemma load_store_same (buf : list R) (i : nat) (v : R) :
  (i < length buf)%nat -> load (store buf i v) i = v.
Proof.
  unfold load. revert i. induction buf as [|h t IH]; intros [|k] Hi; simpl in *; try lia.
  - reflexivity.
  - apply IH. lia.
Qed.

Lemma load_store_other (buf : list R) (i j : nat) (v : R) :
  i <> j -> load (store buf i v) j = load buf j.
Proof.
  unfold load. revert i j.
  induction buf as [|h t IH]; intros [|i] [|j] Hij; simpl; auto; try congruence.
Qed.

Lemma neqb_true (a b : R) : neqb a b = true <-> a <> b.
Proof. unfold neqb. destruct (Req_dec_T a b); split; intros; try discriminate; tauto. Qed.

Lemma orElse_pos (v d : R) : 0 < v -> orElse v d = v.
Proof. intros H. unfold orElse. destruct (Req_dec_T v 0); [lra | reflexivity]. Qed.

Lemma orElse_zero (d : R) : orElse 0 d = d.
Proof. unfold orElse. destruct (Req_dec_T 0 0); [reflexivity | lra]. Qed.

Lemma nth_error_store_same {A : Type} (buf : list A) (i : nat) (v : A) :
  (i < length buf)%nat -> nth_error (store buf i v) i = Some v.
Proof.
  revert i. induction buf as [|h t IH]; intros [|k] Hi; simpl in *; try lia.
  - reflexivity.
  - apply IH. lia.
Qed.

Lemma nth_error_store_other {A : Type} (buf : list A) (i j : nat) (v : A) :
  i <> j -> nth_error (store buf i v) j = nth_error buf j.
Proof.
  revert i j.
  induction buf as [|h t IH]; intros [|i] [|j] Hij; simpl; auto; try congruence.
Qed.

End JSFacts.

(** ** The gesture interpreter *)

Module AppSpec.
Import MediaPipe App Wording.

Lemma isFingerUp_iff (h : Hand) (tip pip : nat) :
  isFingerUp h tip pip = true <-> fingerIsUp h tip pip.
Proof. unfold isFingerUp, fingerIsUp. apply JSFacts.ltb_true. Qed.

Lemma fingerCount_extendedCount (h : Hand) : fingerCount h = extendedCount h.
Proof.
  unfold fingerCount, extendedCount, nonThumbFingers.
  unfold indexUp, middleUp, ringUp, pinkyUp, isFingerUp, JS.ltb. simpl.
  destruct (Rlt_dec (y (h 8%nat)) (y (h 6%nat)));
    destruct (Rlt_dec (y (h 12%nat)) (y (h 10%nat)));
    destruct (Rlt_dec (y (h 16%nat)) (y (h 14%nat)));
    destruct (Rlt_dec (y (h 20%nat)) (y (h 18%nat))); reflexivity.
Qed.

Lemma fingerCount_le_4 (h : Hand) : (fingerCount h <= 4)%nat.
Proof.
  unfold fingerCount.
  destruct (indexUp h), (middleUp h), (ringUp h), (pinkyUp h); lia.
Qed.

Lemma predictWebcam_fresh (f : Frame) (s : State) :
  fresh f s ->
  predictWebcam f s =
  interpret (detect f)
    {| targetMode := targetMode s; dispersionFactor := dispersionFactor s;
       activeHandCount := activeHandCount s;
       lastVideoTimeRef := currentTime f |}.
Proof.
  intros [Hr Ht]. unfold predictWebcam. rewrite Hr. simpl.
  apply JSFacts.neqb_true in Ht. rewrite Ht. reflexivity.
Qed.

Lemma predictWebcam_skipped (f : Frame) (s : State) :
  ~ fresh f s -> predictWebcam f s = s.
Proof.
  intros Hn. unfold predictWebcam.
  destruct (refsReady f) eqn:Hr; simpl; [|reflexivity].
  destruct (JS.neqb (lastVideoTimeRef s) (currentTime f)) eqn:Ht; [|reflexivity].
  exfalso. apply Hn. split; [exact Hr|]. now apply JSFacts.neqb_true.
Qed.

Lemma fresh_dec (f : Frame) (s : State) : fresh f s \/ ~ fresh f s.
Proof.
  unfold fresh. destruct (refsReady f).
  - destruct (Req_dec_T (lastVideoTimeRef s) (currentTime f)); [right|left]; tauto.
  - right. intros [H _]. discriminate.
Qed.

Lemma selectMode_cases (count : nat) (previous : Z) :
  (count = 0%nat /\ selectMode count previous = previous)
  \/ (count = 1%nat /\ selectMode count previous = 1%Z)
  \/ (count = 2%nat /\ selectMode count previous = 2%Z)
  \/ ((3 <= count)%nat /\ selectMode count previous = 3%Z).
Proof.
  unfold selectMode.
  destruct count as [|[|[|n]]]; simpl; auto.
  right. right. right. split; [lia | reflexivity].
Qed.

(** C2.  On a processed frame with a hand, a finger of index, middle, ring,
    pinky is up iff its tip's y is strictly less than its proximal joint's y;
    the count of these four (no thumb) selects the mode: 1 gives 1, 2 gives
    2, 3 or 4 gives 3, 0 keeps the previous mode; index and middle up with
    ring and pinky down gives mode 2. *)
Theorem C2_finger_count_selects_mode
  (f : Frame) (s : State) (h : Hand) (others : list Hand) :
  fresh f s ->
  detect f = Some (h :: others) ->
  let s' := predictWebcam f s in
  (indexUp h = true <-> fingerIsUp h 8 6)
  /\ (middleUp h = true <-> fingerIsUp h 12 10)
  /\ (ringUp h = true <-> fingerIsUp h 16 14)
  /\ (pinkyUp h = true <-> fingerIsUp h 20 18)
  /\ fingerCount h = extendedCount h
  /\ (extendedCount h <= 4)%nat
  /\ (extendedCount h = 1%nat -> targetMode s' = 1%Z)
  /\ (extendedCount h = 2%nat -> targetMode s' = 2%Z)
  /\ (extendedCount h = 3%nat \/ extendedCount h = 4%nat -> targetMode s' = 3%Z)
  /\ (extendedCount h = 0%nat -> targetMode s' = targetMode s)
  /\ (fingerIsUp h 8 6 -> fingerIsUp h 12 10 ->
      ~ fingerIsUp h 16 14 -> ~ fingerIsUp h 20 18 ->
      targetMode s' = 2%Z /\ hasHand (props s') = true).
Proof.
  intros Hfresh Hdet s'.
  assert (Hs' : targetMode s' = selectMode (fingerCount h) (targetMode s)
                /\ hasHand (props s') = true).
  { unfold s'. rewrite (predictWebcam_fresh _ _ Hfresh), Hdet. simpl. auto. }
  destruct Hs' as [Hmode Hhand].
  pose proof (fingerCount_extendedCount h) as Hcount.
  pose proof (fingerCount_le_4 h) as Hle.
  split; [apply isFingerUp_iff|]. split; [apply isFingerUp_iff|].
  split; [apply isFingerUp_iff|]. split; [apply isFingerUp_iff|].
  split; [exact Hcount|]. split; [lia|].
  split. { intros E. rewrite Hmode, Hcount, E. reflexivity. }
  split. { intros E. rewrite Hmode, Hcount, E. reflexivity. }
  split. { intros [E | E]; rewrite Hmode, Hcount, E; reflexivity. }
  split. { intros E. rewrite Hmode, Hcount, E. reflexivity. }
  intros Hindex Hmiddle Hring Hpinky. split; [|exact Hhand].
  rewrite Hmode. unfold fingerCount, indexUp, middleUp, ringUp, pinkyUp.
  apply isFingerUp_iff in Hindex, Hmiddle. rewrite Hindex, Hmiddle.
  destruct (isFingerUp h 16 14) eqn:E3;
    [exfalso; apply Hring; now apply isFingerUp_iff|].
  destruct (isFingerUp h 20 18) eqn:E4;
    [exfalso; apply Hpinky; now apply isFingerUp_iff|].
  reflexivity.
Qed.

Lemma C2_finger_count_selects_mode_witness :
  let f := Samples.frameOf 0 (Some [Samples.victoryHand]) in
  fresh f initialState
  /\ detect f = Some [Samples.victoryHand]
  /\ targetMode (predictWebcam f initialState) = 2%Z
  /\ hasHand (props (predictWebcam f initialState)) = true.
Proof.
  intros f.
  assert (Hf : fresh f initialState) by (split; [reflexivity | simpl; lra]).
  split; [exact Hf|]. split; [reflexivity|].
  apply (C2_finger_count_selects_mode f initialState Samples.victoryHand []
           Hf eq_refl);
    unfold fingerIsUp; simpl; lra.
Defined.

Lemma avgSpread_spread (h : Hand) : avgSpread h = spread h.
Proof.
  unfold avgSpread, spread, euclid, tips, addTipDist. simpl. lra.
Qed.

Lemma min_max_clamp (v : R) : JS.min (JS.max v 0) 1 = clamp v 0 1.
Proof.
  unfold JS.min, JS.max, clamp, Rmin, Rmax.
  destruct (Rle_dec v 0), (Rlt_dec v 0); try lra;
    repeat match goal with
           | |- context [Rle_dec ?a ?b] => destruct (Rle_dec a b)
           | |- context [Rlt_dec ?a ?b] => destruct (Rlt_dec a b)
           end; lra.
Qed.

Lemma clamp_range (v : R) : 0 <= clamp v 0 1 <= 1.
Proof.
  unfold clamp. destruct (Rlt_dec v 0); [lra|]. destruct (Rlt_dec 1 v); lra.
Qed.

(** C3.  On a processed frame with a hand the dispersion is
    clamp((spread - 0.15) * 4, 0, 1), spread being the mean of the five
    wrist-to-fingertip distances (thumb included); it lies in [0,1], is 0
    when spread <= 0.15 and 1 when spread >= 0.4. *)
Theorem C3_dispersion_is_clamped_spread
  (f : Frame) (s : State) (h : Hand) (others : list Hand) :
  fresh f s ->
  detect f = Some (h :: others) ->
  let d := dispersion (props (predictWebcam f s)) in
  d = clamp ((spread h - 0.15) * 4) 0 1
  /\ 0 <= d <= 1
  /\ (spread h <= 0.15 -> d = 0)
  /\ (0.4 <= spread h -> d = 1).
Proof.
  intros Hfresh Hdet d.
  assert (Hd : d = clamp ((spread h - 0.15) * 4) 0 1).
  { unfold d. rewrite (predictWebcam_fresh _ _ Hfresh), Hdet. simpl.
    unfold spreadNorm. rewrite min_max_clamp, avgSpread_spread. reflexivity. }
  split; [exact Hd|]. rewrite Hd.
  split; [apply clamp_range|].
  unfold clamp. split; intros Hs.
  - destruct (Rlt_dec ((spread h - 0.15) * 4) 0); [reflexivity|].
    destruct (Rlt_dec 1 ((spread h - 0.15) * 4)); lra.
  - destruct (Rlt_dec ((spread h - 0.15) * 4) 0); [lra|].
    destruct (Rlt_dec 1 ((spread h - 0.15) * 4)); lra.
Qed.

Lemma spread_pointHand : spread Samples.pointHand = 0.
Proof.
  unfold spread, euclid, Samples.pointHand. simpl.
  replace ((0.5 - 0.5) * (0.5 - 0.5) + (0.5 - 0.5) * (0.5 - 0.5)) with 0 by lra.
  rewrite sqrt_0. lra.
Qed.

Lemma C3_dispersion_is_clamped_spread_witness :
  let f := Samples.frameOf 0 (Some [Samples.pointHand]) in
  fresh f initialState
  /\ detect f = Some [Samples.pointHand]
  /\ dispersion (props (predictWebcam f initialState)) = 0.
Proof.
  intros f.
  assert (Hf : fresh f initialState) by (split; [reflexivity | simpl; lra]).
  split; [exact Hf|]. split; [reflexivity|].
  apply (C3_dispersion_is_clamped_spread f initialState Samples.pointHand []
           Hf eq_refl).
  rewrite spread_pointHand. lra.
Defined.

Lemma interpret_noHand (r : Results) (s : State) :
  r = None \/ r = Some [] -> interpret r s = onNoHand s.
Proof. intros [-> | ->]; reflexivity. Qed.

Lemma run_app (fs gs : list Frame) (s : State) :
  run (fs ++ gs) s = run gs (run fs s).
Proof. unfold run. apply fold_left_app. Qed.

(** Without a hand, a call of [predictWebcam] keeps the mode and the count
    of hands stays 0 once it is 0. *)
Lemma predictWebcam_noHand_mode (f : Frame) (s : State) :
  noHand f ->
  targetMode (predictWebcam f s) = targetMode s
  /\ (activeHandCount s = 0%nat -> activeHandCount (predictWebcam f s) = 0%nat).
Proof.
  intros Hno.
  destruct (fresh_dec f s) as [Hf | Hf].
  - rewrite (predictWebcam_fresh _ _ Hf), (interpret_noHand _ _ Hno). simpl. auto.
  - rewrite (predictWebcam_skipped _ _ Hf). auto.
Qed.

(** C6 (as stated): the mode before any hand is detected would be 0.  The
    initial state already refutes it: the mode handed to the simulator is 1. *)
Lemma C6_default_mode_not_zero :
  mode (props (run [] initialState)) = 1%Z
  /\ mode (props (run [] initialState)) <> 0%Z.
Proof. simpl. split; [reflexivity | discriminate]. Qed.

(** C6 (amended).  The mode is always defined and its default is 1: over any
    run of frames in which no hand is detected, the mode consumed by the
    simulator is 1, a member of the mode set, and the no-hand condition is
    carried by the hand-active flag, which is false. *)
Theorem C6_default_mode_is_one (fs : list Frame) :
  Forall noHand fs ->
  mode (props (run fs initialState)) = 1%Z
  /\ textMode (mode (props (run fs initialState)))
  /\ hasHand (props (run fs initialState)) = false.
Proof.
  intros Hall.
  assert (H : targetMode (run fs initialState) = 1%Z
              /\ activeHandCount (run fs initialState) = 0%nat).
  { induction fs as [|f fs IH] using rev_ind; [simpl; auto|].
    apply Forall_app in Hall. destruct Hall as [Hfs Hf].
    inversion Hf as [|? ? Hno _]; subst.
    destruct (IH Hfs) as [IHm IHc].
    rewrite run_app. simpl.
    destruct (predictWebcam_noHand_mode f (run fs initialState) Hno)
      as [Hm Hc].
    split; [rewrite Hm; exact IHm | apply Hc; exact IHc]. }
  destruct H as [Hm Hc]. simpl. rewrite Hm, Hc.
  repeat split. left. reflexivity.
Qed.

Lemma C6_default_mode_is_one_witness :
  let fs := [Samples.frameOf 0 None; Samples.frameOf 1 (Some [])] in
  Forall noHand fs /\ mode (props (run fs initialState)) = 1%Z.
Proof.
  intros fs.
  assert (Hall : Forall noHand fs).
  { constructor; [left; reflexivity|].
    constructor; [right; reflexivity | constructor]. }
  split; [exact Hall|].
  apply (C6_default_mode_is_one fs Hall).
Defined.

(** C7.  On a processed frame without a hand-pose sample the outputs are
    dispersion 0.1 and hand-active false, and the mode is the one of the
    previous tick; so mode 3 stays mode 3. *)
Theorem C7_no_hand_keeps_mode (f : Frame) (s : State) :
  fresh f s ->
  noHand f ->
  let s' := predictWebcam f s in
  dispersion (props s') = 0.1
  /\ hasHand (props s') = false
  /\ mode (props s') = mode (props s)
  /\ (mode (props s) = 3%Z -> mode (props s') = 3%Z).
Proof.
  intros Hf Hno s'. unfold s'.
  rewrite (predictWebcam_fresh _ _ Hf), (interpret_noHand _ _ Hno). simpl.
  auto.
Qed.

Lemma threeHand_selects_3 :
  targetMode
    (predictWebcam (Samples.frameOf 0 (Some [Samples.threeHand])) initialState)
  = 3%Z.
Proof.
  assert (Hf : fresh (Samples.frameOf 0 (Some [Samples.threeHand])) initialState)
    by (split; [reflexivity | simpl; lra]).
  rewrite (predictWebcam_fresh _ _ Hf). simpl.
  pose proof (fingerCount_extendedCount Samples.threeHand) as Hc.
  assert (He : extendedCount Samples.threeHand = 3%nat).
  { unfold extendedCount, nonThumbFingers. simpl.
    repeat match goal with
           | |- context [Rlt_dec ?a ?b] => destruct (Rlt_dec a b); try lra
           end.
    reflexivity. }
  rewrite Hc, He. reflexivity.
Qed.

Lemma C7_no_hand_keeps_mode_witness :
  let s := predictWebcam (Samples.frameOf 0 (Some [Samples.threeHand]))
             initialState in
  let f := Samples.frameOf 1 None in
  fresh f s /\ noHand f
  /\ mode (props (predictWebcam f s)) = 3%Z
  /\ hasHand (props (predictWebcam f s)) = false
  /\ dispersion (props (predictWebcam f s)) = 0.1.
Proof.
  intros s f.
  assert (Hf : fresh f s).
  { split; [reflexivity|]. unfold s, f, predictWebcam. simpl.
    destruct (JS.neqb (-1) 0) eqn:E; simpl; lra. }
  assert (Hno : noHand f) by (left; reflexivity).
  split; [exact Hf|]. split; [exact Hno|].
  destruct (C7_no_hand_keeps_mode f s Hf Hno) as (Hd & Hh & Hm & H3).
  split; [apply H3; exact threeHand_selects_3|].
  split; [exact Hh | exact Hd].
Defined.

(** One call of [predictWebcam] maps a text mode to a text mode, and when it
    changes the mode the frame was processed and showed a hand with at
    least one of the four non-thumb fingers up. *)
Lemma predictWebcam_mode (f : Frame) (s : State) :
  (textMode (targetMode s) -> textMode (targetMode (predictWebcam f s)))
  /\ (targetMode (predictWebcam f s) <> targetMode s ->
      fresh f s
      /\ exists h others,
           detect f = Some (h :: others) /\ (1 <= extendedCount h)%nat).
Proof.
  destruct (fresh_dec f s) as [Hf | Hf].
  2:{ rewrite (predictWebcam_skipped _ _ Hf). split; [auto | congruence]. }
  rewrite (predictWebcam_fresh _ _ Hf).
  destruct (detect f) as [[|h others]|] eqn:Hdet; simpl;
    try (split; [auto | congruence]).
  pose proof (fingerCount_extendedCount h) as He.
  destruct (selectMode_cases (fingerCount h) (targetMode s))
    as [[Hc ->] | [[Hc ->] | [[Hc ->] | [Hc ->]]]]; unfold textMode.
  - split; [auto | congruence].
  - split; [auto|]. intros _. split; [exact Hf|]. exists h, others. split; [reflexivity | lia].
  - split; [auto|]. intros _. split; [exact Hf|]. exists h, others. split; [reflexivity | lia].
  - split; [auto|]. intros _. split; [exact Hf|]. exists h, others. split; [reflexivity | lia].
Qed.




End AppSpec.

(** ** The text rasterizer *)

Module TextUtilsSpec.
Import THREE TextUtils Wording.

Section ScanFacts.
Variable data : list Z.
Variable width : Z.
Variable height : Q.

Lemma below_iff (yy : Z) : below height yy = true <-> (inject_Z yy < height)%Q.
Proof.
  unfold below. rewrite negb_true_iff.
  destruct (Qle_bool height (inject_Z yy)) eqn:E.
  - apply Qle_bool_iff in E. split; [discriminate|].
    intros H. exfalso. apply (Qlt_irrefl height).
    apply Qle_lt_trans with (inject_Z yy); assumption.
  - split; [intros _ | reflexivity].
    apply Qnot_le_lt. intros H. apply Qle_bool_iff in H. congruence.
Qed.

Lemma below_ceiling (yy : Z) :
  below height yy = true -> (yy < Qceiling height)%Z.
Proof.
  intros H. apply below_iff in H.
  rewrite Zlt_Qlt. apply Qlt_le_trans with height; [exact H|].
  apply Qle_ceiling.
Qed.

(** One row: the scan adds the opaque samples of row [yy] from column
    [xx] on, every second column, and the fuel does not cut it short. *)
Lemma scanRow_In (fuel : nat) (yy : Z) :
  forall (xx : Z) (acc : list Pixel) (p : Pixel),
    (Z.to_nat (width - xx) <= fuel)%nat ->
    (In p (scanRow data width fuel yy xx acc) <->
     In p acc
     \/ (py p = yy /\ (exists j, 0 <= j /\ px p = xx + 2 * j)%Z
         /\ (px p < width)%Z /\ opaque data width (px p) yy = true)).
Proof.
  induction fuel as [|k IH]; intros xx acc p Hfuel; cbn [scanRow].
  - split; [auto|]. intros [H | (_ & (j & Hj & Hx) & Hw & _)]; [exact H | lia].
  - destruct (Z.ltb_spec xx width) as [Hlt | Hge].
    2:{ split; [auto|]. intros [H | (_ & (j & Hj & Hx) & Hw & _)]; [exact H | lia]. }
    rewrite IH by lia.
    destruct p as [pxx pyy]; cbn [px py].
    destruct (opaque data width xx yy) eqn:Hop.
    + rewrite in_app_iff. cbn [In]. split.
      * intros [[H | [H | []]] | (Hy & (j & Hj & Hx) & Hw & Ho)].
        -- left; exact H.
        -- right. injection H as <- <-.
           repeat split; auto. exists 0%Z. lia.
        -- right. repeat split; auto. exists (j + 1)%Z. lia.
      * intros [H | (Hy & (j & Hj & Hx) & Hw & Ho)]; [left; left; exact H|].
        destruct (Z.eq_dec j 0) as [-> | Hne].
        -- left. right. left. f_equal; lia.
        -- right. repeat split; auto. exists (j - 1)%Z. lia.
    + split.
      * intros [H | (Hy & (j & Hj & Hx) & Hw & Ho)]; [left; exact H|].
        right. repeat split; auto. exists (j + 1)%Z. lia.
      * intros [H | (Hy & (j & Hj & Hx) & Hw & Ho)]; [left; exact H|].
        destruct (Z.eq_dec j 0) as [-> | Hne].
        -- replace pxx with xx in Ho by lia. congruence.
        -- right. repeat split; auto. exists (j - 1)%Z. lia.
Qed.

(** All rows from [yy] on, every second row. *)
Lemma scanRows_In (fuel : nat) :
  forall (yy : Z) (acc : list Pixel) (p : Pixel),
    (Z.to_nat (Qceiling height - yy) <= fuel)%nat ->
    (In p (scanRows data width height fuel yy acc) <->
     In p acc
     \/ ((exists k, 0 <= k /\ py p = yy + 2 * k)%Z
         /\ (inject_Z (py p) < height)%Q
         /\ (exists j, 0 <= j /\ px p = 2 * j)%Z
         /\ (px p < width)%Z /\ opaque data width (px p) (py p) = true)).
Proof.
  induction fuel as [|n IH]; intros yy acc p Hfuel; cbn [scanRows].
  - split; [auto|].
    intros [H | ((k & Hk & Hy) & Hh & _)]; [exact H|].
    apply below_iff, below_ceiling in Hh. lia.
  - destruct (below height yy) eqn:Hb.
    2:{ split; [auto|].
        intros [H | ((k & Hk & Hy) & Hh & _)]; [exact H|].
        exfalso.
        assert (Hyy : below height yy = true).
        { apply below_iff. apply Qle_lt_trans with (inject_Z (py p)); [|exact Hh].
          rewrite <- Zle_Qle. lia. }
        congruence. }
    pose proof (below_ceiling _ Hb) as Hc.
    rewrite IH by lia.
    rewrite scanRow_In by lia.
    split.
    + intros [[H | (Hy & (j & Hj & Hx) & Hw & Ho)]
             | ((k & Hk & Hy) & Hh & Hx & Hw & Ho)].
      * left; exact H.
      * right. rewrite Hy. split; [exists 0%Z; lia|].
        split; [apply below_iff; exact Hb|].
        split; [exists j; lia|]. split; [exact Hw | exact Ho].
      * right. split; [exists (k + 1)%Z; lia|]. auto.
    + intros [H | ((k & Hk & Hy) & Hh & (j & Hj & Hx) & Hw & Ho)];
        [left; left; exact H|].
      destruct (Z.eq_dec k 0) as [-> | Hne].
      * left. right. assert (E : py p = yy) by lia. rewrite E in Ho.
        split; [exact E|]. split; [exists j; lia|]. auto.
      * right. split; [exists (k - 1)%Z; lia|].
        split; [exact Hh|]. split; [exists j; auto|]. auto.
Qed.

(** The valid pixels are exactly the samples of the coarse grid whose
    alpha exceeds 128. *)
Lemma collectValidPixels_In (p : Pixel) :
  In p (collectValidPixels data width height) <->
  onGrid width height p /\ opaque data width (px p) (py p) = true.
Proof.
  unfold collectValidPixels, onGrid.
  rewrite scanRows_In by lia. cbn [In].
  split.
  - intros [[] | ((k & Hk & Hy) & Hh & Hx & Hw & Ho)].
    repeat split; auto. exists k. lia.
  - intros (((j & Hj & Hx) & (k & Hk & Hy) & Hw & Hh) & Ho).
    right. split; [exists k; lia|]. split; [exact Hh|].
    split; [exists j; auto|]. auto.
Qed.

Lemma sampleLoop_seq (validPixels : list Pixel) (n : nat) :
  forall (i : nat) (points : list Vector3),
    sampleLoop width height validPixels n i points
    = points ++ map (samplePoint width height validPixels) (seq i n).
Proof.
  induction n as [|k IH]; intros i points; simpl.
  - now rewrite app_nil_r.
  - rewrite IH, <- app_assoc. reflexivity.
Qed.

Lemma samplePoint_centerFlipScale (validPixels : list Pixel) (i : nat) :
  validPixels <> [] ->
  exists pixel,
    nth_error validPixels (i mod List.length validPixels) = Some pixel
    /\ samplePoint width height validPixels i
       = centerFlipScale width height pixel.
Proof.
  intros Hne.
  assert (Hlen : (List.length validPixels <> 0)%nat).
  { destruct validPixels; simpl; [congruence | lia]. }
  pose proof (Nat.mod_upper_bound i _ Hlen) as Hlt.
  exists (nth (i mod List.length validPixels) validPixels {| px := 0; py := 0 |}).
  split; [apply nth_error_nth'; exact Hlt|].
  unfold samplePoint, centerFlipScale. f_equal; lra.
Qed.

End ScanFacts.

(** The rasterizer on a bitmap that could be read. *)
Lemma generateTextParticles_read
  (c : Context2D) (text : String.string) (size : Q) (n : nat) (data : list Z) :
  let width := Qceiling (measureText c text size) in
  let height := (size * (3 # 2))%Q in
  let validPixels := collectValidPixels data width height in
  getImageData c text size width height = Some data ->
  generateTextParticles (Some c) text size n
  = Some (if (List.length validPixels =? 0)%nat then []
          else map (samplePoint width height validPixels) (seq 0 n)).
Proof.
  intros width height validPixels Hread.
  unfold generateTextParticles. fold width. fold height. rewrite Hread.
  fold validPixels.
  destruct (List.length validPixels =? 0)%nat; [reflexivity|].
  now rewrite sampleLoop_seq.
Qed.

(** The rasterizer returns only when the bitmap could be read. *)
Lemma generateTextParticles_returns
  (c : Context2D) (text : String.string) (size : Q) (n : nat)
  (out : list Vector3) :
  generateTextParticles (Some c) text size n = Some out ->
  exists data,
    getImageData c text size (Qceiling (measureText c text size))
      (size * (3 # 2))%Q = Some data.
Proof.
  unfold generateTextParticles.
  destruct (getImageData c text size (Qceiling (measureText c text size))
              (size * (3 # 2))%Q) as [data|]; [|discriminate].
  intros _. now exists data.
Qed.

Lemma getImageData_empty
  (c : Context2D) (text : String.string) (size : Q) (width : Z) (height : Q) :
  JS.toLong (inject_Z width) = 0%Z \/ JS.toLong height = 0%Z ->
  getImageData c text size width height = None.
Proof.
  intros H. unfold getImageData.
  destruct H as [-> | ->]; [reflexivity|].
  now rewrite Z.eqb_refl, orb_true_r.
Qed.

(** C1.  The rasterizer is specified to return no points whenever there is
    no valid pixel.  The code does not get that far for a bitmap without
    pixels: when the measured width of the text is 0, as for the empty text,
    or the height 1.5 * size is 0 as an integer, reading the image data
    throws and the rasterizer throws with it instead of returning no
    points. *)
Theorem C1_rasterize_throws_on_empty_bitmap
  (c : Context2D) (text : String.string) (size : Q) (maxPoints : nat) :
  let width := Qceiling (measureText c text size) in
  let height := (size * (3 # 2))%Q in
  width = 0%Z \/ JS.toLong height = 0%Z ->
  generateTextParticles (Some c) text size maxPoints = None.
Proof.
  intros width height H.
  assert (H0 : JS.toLong (inject_Z width) = 0%Z \/ JS.toLong height = 0%Z).
  { destruct H as [H | H]; [left; rewrite H; reflexivity | right; exact H]. }
  unfold generateTextParticles. fold width. fold height.
  now rewrite (getImageData_empty c text size width height H0).
Qed.

Lemma C1_rasterize_throws_on_empty_bitmap_witness :
  (Qceiling (measureText Samples.blankContext String.EmptyString 40) = 0%Z
   \/ JS.toLong (40 * (3 # 2))%Q = 0%Z)
  /\ generateTextParticles (Some Samples.blankContext) String.EmptyString 40
       2000 = None.
Proof.
  assert (H : Qceiling (measureText Samples.blankContext String.EmptyString 40)
              = 0%Z \/ JS.toLong (40 * (3 # 2))%Q = 0%Z)
    by (left; reflexivity).
  split; [exact H|].
  apply (C1_rasterize_throws_on_empty_bitmap Samples.blankContext
           String.EmptyString 40 2000 H).
Defined.

End TextUtilsSpec.

(** ** Vector facts *)

Module THREEFacts.
Import THREE.

Lemma vec_eq (a b : Vector3) :
  x a = x b -> y a = y b -> z a = z b -> a = b.
Proof. destruct a, b; simpl; intros -> -> ->; reflexivity. Qed.

Lemma sumsq_nonneg (a b c : R) : 0 <= a * a + b * b + c * c.
Proof. nra. Qed.

Lemma length_nonneg (a : Vector3) : 0 <= length a.
Proof. apply sqrt_pos. Qed.

Lemma length_origin : length origin = 0.
Proof.
  unfold length, origin. simpl.
  replace (0 * 0 + 0 * 0 + 0 * 0) with 0 by lra. apply sqrt_0.
Qed.

Lemma length_zero (a : Vector3) : length a = 0 -> a = origin.
Proof.
  unfold length. intros H.
  apply sqrt_eq_0 in H; [|apply sumsq_nonneg].
  apply vec_eq; simpl; nra.
Qed.

Lemma length_pos (a : Vector3) : a <> origin -> 0 < length a.
Proof.
  intros Hne. destruct (length_nonneg a) as [H | H]; [exact H|].
  exfalso. apply Hne. now apply length_zero.
Qed.

Lemma length_multiplyScalar (a : Vector3) (s : R) :
  length (multiplyScalar a s) = Rabs s * length a.
Proof.
  unfold length, multiplyScalar. simpl.
  replace (x a * s * (x a * s) + y a * s * (y a * s) + z a * s * (z a * s))
    with (Rsqr s * (x a * x a + y a * y a + z a * z a))
    by (unfold Rsqr; ring).
  rewrite sqrt_mult_alt by apply Rle_0_sqr.
  now rewrite sqrt_Rsqr_abs.
Qed.

Lemma sub_self (a : Vector3) : sub a a = origin.
Proof. apply vec_eq; simpl; lra. Qed.

Lemma sub_origin_eq (a b : Vector3) : sub a b = origin -> b = a.
Proof.
  intros H. apply vec_eq.
  - apply (f_equal x) in H. simpl in H. lra.
  - apply (f_equal y) in H. simpl in H. lra.
  - apply (f_equal z) in H. simpl in H. lra.
Qed.

Lemma normalize_origin : normalize origin = origin.
Proof.
  unfold normalize. rewrite length_origin, JSFacts.orElse_zero.
  apply vec_eq; simpl; lra.
Qed.

Lemma normalize_pos (a : Vector3) :
  0 < length a -> normalize a = multiplyScalar a (1 / length a).
Proof.
  intros H. unfold normalize. now rewrite JSFacts.orElse_pos.
Qed.

End THREEFacts.

(** ** The physics step *)

Module PhysicsFacts.
Import THREE ParticleSystem Wording THREEFacts.

(** The code's update is the seek-with-arrival update of the
    specification. *)
Lemma physics_seekUpdated (dispersion : R) (target : Vector3) (p : Particle) :
  seekUpdated dispersion target p (physics dispersion target p).
Proof.
  unfold seekUpdated, physics. cbn [position velocity targetIndex].
  set (toTarget := sub target (position p)).
  set (dist := length toTarget).
  replace (0.5 + dispersion * 1.5) with (0.5 + 1.5 * dispersion) by lra.
  set (maxSpeed := 0.5 + 1.5 * dispersion).
  unfold JS.min.
  set (magnitude := Rmin (dist * 0.1) maxSpeed).
  exists (multiplyScalar (normalize toTarget) magnitude).
  repeat split.
  - intros Hd. rewrite normalize_pos by exact Hd. fold dist.
    apply vec_eq; simpl; field; lra.
  - intros Hd. apply length_zero in Hd. rewrite Hd, normalize_origin.
    apply vec_eq; simpl; lra.
  - intros Hms.
    assert (Hdist : 0 <= dist) by apply length_nonneg.
    assert (Hmag : 0 <= magnitude).
    { unfold magnitude, Rmin. destruct (Rle_dec (dist * 0.1) maxSpeed); lra. }
    rewrite length_multiplyScalar, (Rabs_pos_eq _ Hmag).
    destruct Hdist as [Hpos | Hzero].
    + rewrite normalize_pos by exact Hpos. fold dist.
      rewrite length_multiplyScalar. fold dist.
      rewrite Rabs_pos_eq.
      * field. lra.
      * apply Rlt_le. apply Rdiv_lt_0_compat; lra.
    + assert (Hm0 : magnitude = 0).
      { unfold magnitude, Rmin. rewrite <- Hzero.
        destruct (Rle_dec (0 * 0.1) maxSpeed); lra. }
      rewrite Hm0. lra.
Qed.

Lemma particle_eq (p q : Particle) :
  position p = position q -> velocity p = velocity q ->
  targetIndex p = targetIndex q -> p = q.
Proof. destruct p, q; simpl; intros -> -> ->; reflexivity. Qed.

(** A particle resting on its target is left where it is. *)
Lemma physics_at_rest (dispersion : R) (target : Vector3) (p : Particle) :
  position p = target -> velocity p = origin ->
  physics dispersion target p = p.
Proof.
  intros Hp Hv. unfold physics. rewrite Hp, Hv, sub_self, normalize_origin.
  apply particle_eq; cbn [position velocity targetIndex].
  - rewrite Hp. apply vec_eq; simpl; lra.
  - rewrite Hv. apply vec_eq; simpl; lra.
  - reflexivity.
Qed.

(** With a positive speed cap the resting state on the target is the only
    state the step leaves unchanged. *)
Lemma physics_fixed_point (dispersion : R) (target : Vector3) (p : Particle) :
  0 < 0.5 + 1.5 * dispersion ->
  physics dispersion target p = p ->
  position p = target /\ velocity p = origin.
Proof.
  intros Hms Hfix.
  destruct (physics_seekUpdated dispersion target p)
    as (force & Hdir & _ & _ & Hv & Hp & _).
  rewrite Hfix in Hv, Hp.
  assert (Hv0 : velocity p = origin).
  { apply vec_eq.
    - apply (f_equal x) in Hp. simpl in Hp. simpl. lra.
    - apply (f_equal y) in Hp. simpl in Hp. simpl. lra.
    - apply (f_equal z) in Hp. simpl in Hp. simpl. lra. }
  split; [|exact Hv0].
  rewrite Hv0 in Hv.
  assert (Hf0 : force = origin).
  { apply vec_eq.
    - apply (f_equal x) in Hv. simpl in Hv. simpl. lra.
    - apply (f_equal y) in Hv. simpl in Hv. simpl. lra.
    - apply (f_equal z) in Hv. simpl in Hv. simpl. lra. }
  set (toTarget := sub target (position p)) in *.
  destruct (length_nonneg toTarget) as [Hpos | Hzero].
  - exfalso. specialize (Hdir Hpos). rewrite Hf0 in Hdir.
    set (k := Rmin (length toTarget * 0.1) (0.5 + 1.5 * dispersion)
              / length toTarget) in Hdir.
    assert (Hk : 0 < k).
    { unfold k. apply Rdiv_lt_0_compat; [|exact Hpos].
      unfold Rmin.
      destruct (Rle_dec (length toTarget * 0.1) (0.5 + 1.5 * dispersion)); lra. }
    assert (Ht0 : toTarget = origin).
    { apply vec_eq.
      - apply (f_equal x) in Hdir. simpl in Hdir. simpl. nra.
      - apply (f_equal y) in Hdir. simpl in Hdir. simpl. nra.
      - apply (f_equal z) in Hdir. simpl in Hdir. simpl. nra. }
    rewrite Ht0, length_origin in Hpos. lra.
  - symmetry in Hzero. apply length_zero in Hzero.
    now apply sub_origin_eq in Hzero.
Qed.

End PhysicsFacts.

(** ** Seeking a fixed target from rest: motion on a line *)

Module SeekFacts.
Import THREE ParticleSystem Wording THREEFacts PhysicsFacts.

Lemma length_sq (a : Vector3) : length a * length a = dot a a.
Proof. unfold length, dot. apply sqrt_sqrt. apply sumsq_nonneg. Qed.

Lemma dot_multiplyScalar (a : Vector3) (s : R) :
  dot (multiplyScalar a s) a = s * (length a * length a).
Proof. rewrite length_sq. unfold dot, multiplyScalar. simpl. ring. Qed.

Lemma sub_onLine (target D : Vector3) (c : R) :
  sub target (sub target (multiplyScalar D c)) = multiplyScalar D c.
Proof. apply vec_eq; simpl; ring. Qed.

(** One physics step keeps the particle on its line and acts on the
    coordinates as [seek1]. *)
Lemma physics_onLine
  (dispersion : R) (target D : Vector3) (cw : R * R) (p : Particle) :
  onLine target D cw p ->
  onLine target D (seek1 (length D) (speedCap dispersion) cw)
    (physics dispersion target p).
Proof.
  destruct cw as [c w]. intros [Hp Hv]. cbn [fst snd] in Hp, Hv.
  unfold onLine, physics, seek1, speedCap, normalize, divideScalar, JS.min.
  cbn [fst snd position velocity].
  rewrite Hp, Hv, sub_onLine, length_multiplyScalar.
  replace (0.5 + dispersion * 1.5) with (0.5 + 1.5 * dispersion) by lra.
  split; apply vec_eq; simpl; ring.
Qed.

Lemma seekFor_onLine
  (dispersion : R) (target D : Vector3) (cw : R * R) (p : Particle) (n : nat) :
  onLine target D cw p ->
  onLine target D (seek1For (length D) (speedCap dispersion) n cw)
    (seekFor dispersion target n p).
Proof.
  intros H. induction n as [|n IH]; cbn [seek1For seekFor]; [exact H|].
  now apply physics_onLine.
Qed.

(** A particle at rest is on the line from its position to the target, at
    coordinates (1, 0). *)
Lemma onLine_start (target : Vector3) (p : Particle) :
  velocity p = origin ->
  onLine target (sub target (position p)) (1, 0) p.
Proof.
  intros Hv. split; cbn [fst snd].
  - apply vec_eq; simpl; ring.
  - rewrite Hv. apply vec_eq; simpl; ring.
Qed.

Lemma onLine_distance (target D : Vector3) (cw : R * R) (p : Particle) :
  onLine target D cw p -> distanceTo target p = Rabs (fst cw) * length D.
Proof.
  intros [Hp _]. unfold distanceTo.
  now rewrite Hp, sub_onLine, length_multiplyScalar.
Qed.

Lemma onLine_speed (target D : Vector3) (cw : R * R) (p : Particle) :
  onLine target D cw p -> length (velocity p) = Rabs (snd cw) * length D.
Proof. intros [_ Hv]. now rewrite Hv, length_multiplyScalar. Qed.

Lemma onLine_passed (start target : Vector3) (cw : R * R) (p : Particle) :
  start <> target ->
  onLine target (sub target start) cw p ->
  (passed start target p <-> fst cw < 0).
Proof.
  intros Hne [Hp _]. unfold passed.
  rewrite Hp, sub_onLine, dot_multiplyScalar.
  assert (HL : 0 < length (sub target start)).
  { apply length_pos. intros H. apply sub_origin_eq in H. congruence. }
  assert (Hq : 0 < length (sub target start) * length (sub target start))
    by nra.
  set (q := length (sub target start) * length (sub target start)) in *.
  split; intros H.
  - destruct (Rlt_dec (fst cw) 0) as [Hlt | Hge]; [exact Hlt|].
    assert (0 <= fst cw * q) by (apply Rmult_le_pos; lra). lra.
  - assert (0 < - fst cw * q) by (apply Rmult_lt_0_compat; lra). lra.
Qed.

Section Line.
Variable L : R.
Variable ms : R.
Hypothesis L_pos : 0 < L.
Hypothesis ms_pos : 0 < ms.

(** The pull [g] of [seek1]: towards the target, and at most the cap. *)
Lemma pull_bound (c : R) :
  let dist := Rabs c * L in
  let g := c * (1 / JS.orElse dist 1) * Rmin (dist * 0.1) ms in
  Rabs g * L <= ms /\ (0 < c -> 0 < g) /\ (c = 0 -> g = 0).
Proof.
  intros dist g.
  assert (Hc0 : c = 0 -> g = 0) by (intros E; unfold g; rewrite E; ring).
  destruct (Req_dec_T c 0) as [E | Hne].
  { rewrite (Hc0 E), Rabs_R0.
    split; [lra|]. split; [intros; lra | reflexivity]. }
  assert (Hd : 0 < dist) by (unfold dist; pose proof (Rabs_pos_lt c Hne); nra).
  assert (Hm : 0 < Rmin (dist * 0.1) ms <= ms).
  { unfold Rmin. destruct (Rle_dec (dist * 0.1) ms); lra. }
  assert (Hg : g = c * (Rmin (dist * 0.1) ms / dist)).
  { unfold g. rewrite JSFacts.orElse_pos by exact Hd. field. lra. }
  assert (Hq : 0 < Rmin (dist * 0.1) ms / dist)
    by (apply Rdiv_lt_0_compat; lra).
  split; [|split; [|exact Hc0]].
  - rewrite Hg, Rabs_mult, (Rabs_pos_eq (_ / _)) by lra.
    replace (Rabs c * (Rmin (dist * 0.1) ms / dist) * L)
      with (Rmin (dist * 0.1) ms) by (unfold dist; field; split; [lra|];
                                      pose proof (Rabs_pos_lt c Hne); lra).
    lra.
  - intros Hc. rewrite Hg. nra.
Qed.

(** Ahead of the target and not moving away: the step moves closer. *)
Lemma seek1_closer (c w : R) :
  0 < c -> 0 <= w ->
  0 < snd (seek1 L ms (c, w))
  /\ fst (seek1 L ms (c, w)) = c - snd (seek1 L ms (c, w)).
Proof.
  intros Hc Hw. unfold seek1. cbn [fst snd].
  destruct (pull_bound c) as (_ & Hg & _). specialize (Hg Hc).
  split; [nra | reflexivity].
Qed.

(** On the target with speed left: the step passes it. *)
Lemma seek1_through (w : R) :
  0 < w -> fst (seek1 L ms (0, w)) < 0.
Proof.
  intros Hw. unfold seek1. cbn [fst snd].
  destruct (pull_bound 0) as (_ & _ & Hg). rewrite (Hg eq_refl). lra.
Qed.

(** The speed stays below 11.5 times the cap. *)
Lemma seek1_speed (c w : R) :
  Rabs w * L < 11.5 * ms ->
  Rabs (snd (seek1 L ms (c, w))) * L < 11.5 * ms.
Proof.
  intros Hw. unfold seek1. cbn [fst snd].
  destruct (pull_bound c) as (Hg & _ & _). cbv zeta in Hg.
  set (g := c * (1 / JS.orElse (Rabs c * L) 1) * Rmin (Rabs c * L * 0.1) ms) in *.
  rewrite Rabs_mult, (Rabs_pos_eq 0.92) by lra.
  pose proof (Rabs_triang w g) as Ht.
  pose proof (Rabs_pos (w + g)) as Hp.
  nra.
Qed.

Lemma seek1For_speed (n : nat) :
  Rabs (snd (seek1For L ms n (1, 0))) * L < 11.5 * ms.
Proof.
  induction n as [|n IH]; cbn [seek1For].
  - cbn [snd]. rewrite Rabs_R0. lra.
  - destruct (seek1For L ms n (1, 0)) as [c w]. apply seek1_speed. exact IH.
Qed.

(** As long as the target is not passed, the particle stays strictly
    ahead of it and does not move away. *)
Lemma seek1For_ahead (n : nat) :
  (forall k, (k <= S n)%nat -> 0 <= fst (seek1For L ms k (1, 0))) ->
  forall k, (k <= n)%nat ->
    0 < fst (seek1For L ms k (1, 0)) /\ 0 <= snd (seek1For L ms k (1, 0)).
Proof.
  intros Hall k. induction k as [|k IH]; intros Hk.
  - cbn [seek1For fst snd]. lra.
  - destruct (IH ltac:(lia)) as [Hc Hw].
    pose proof (Hall (S k) ltac:(lia)) as H1.
    pose proof (Hall (S (S k)) ltac:(lia)) as H2.
    cbn [seek1For] in *.
    destruct (seek1For L ms k (1, 0)) as [c w]. cbn [fst snd] in Hc, Hw.
    destruct (seek1_closer c w Hc Hw) as [Hw' Hc'].
    split; [|lra].
    destruct H1 as [Hpos | Hzero]; [exact Hpos|].
    exfalso.
    destruct (seek1 L ms (c, w)) as [c' w']. cbn [fst snd] in *.
    rewrite <- Hzero in H2.
    pose proof (seek1_through w' Hw'). lra.
Qed.

Lemma seek1For_decreases (n : nat) :
  (forall k, (k <= S n)%nat -> 0 <= fst (seek1For L ms k (1, 0))) ->
  Rabs (fst (seek1For L ms (S n) (1, 0)))
  < Rabs (fst (seek1For L ms n (1, 0))).
Proof.
  intros Hall.
  destruct (seek1For_ahead n Hall n (Nat.le_refl n)) as [Hc Hw].
  pose proof (Hall (S n) (Nat.le_refl _)) as H1.
  cbn [seek1For] in *.
  destruct (seek1For L ms n (1, 0)) as [c w]. cbn [fst snd] in Hc, Hw |- *.
  destruct (seek1_closer c w Hc Hw) as [Hw' Hc'].
  rewrite !Rabs_pos_eq by lra. lra.
Qed.

(** The tick that passes the target lands within one tick's travel. *)
Lemma seek1For_landing (n : nat) :
  0 <= fst (seek1For L ms n (1, 0)) ->
  fst (seek1For L ms (S n) (1, 0)) < 0 ->
  Rabs (fst (seek1For L ms (S n) (1, 0)))
  <= Rabs (snd (seek1For L ms (S n) (1, 0))).
Proof.
  cbn [seek1For]. destruct (seek1For L ms n (1, 0)) as [c w].
  unfold seek1. cbn [fst snd]. intros Hc Hc'.
  set (w' := (w + c * (1 / JS.orElse (Rabs c * L) 1)
                  * Rmin (Rabs c * L * 0.1) ms) * 0.92) in *.
  rewrite (Rabs_left _ Hc'). pose proof (Rle_abs w'). lra.
Qed.

(** Beyond the target the pull points back. *)
Lemma pull_back (c : R) :
  c < 0 ->
  c * (1 / JS.orElse (Rabs c * L) 1) * Rmin (Rabs c * L * 0.1) ms < 0.
Proof.
  intros Hc.
  assert (Ha : 0 < Rabs c) by (apply Rabs_pos_lt; lra).
  assert (Hd : 0 < Rabs c * L) by (now apply Rmult_lt_0_compat).
  rewrite JSFacts.orElse_pos by exact Hd.
  assert (Hm : 0 < Rmin (Rabs c * L * 0.1) ms).
  { unfold Rmin. destruct (Rle_dec (Rabs c * L * 0.1) ms); lra. }
  assert (Hi : 0 < 1 / (Rabs c * L)) by (apply Rdiv_lt_0_compat; lra).
  assert (Hq : 0 < 1 / (Rabs c * L) * Rmin (Rabs c * L * 0.1) ms)
    by (now apply Rmult_lt_0_compat).
  rewrite Rmult_assoc.
  replace 0 with (c * 0) by ring.
  apply Rmult_lt_gt_compat_neg_l; assumption.
Qed.

(** How far beyond the target the particle can still get: its offset
    beyond the target plus 11.5 times the speed it has away from it.  One
    step does not raise this reach beyond 143.75 times the cap. *)
Lemma seek1_reach (c w : R) :
  Rabs w * L < 11.5 * ms ->
  (c < 0 -> (- c + 11.5 * Rmax w 0) * L < 143.75 * ms) ->
  fst (seek1 L ms (c, w)) < 0 ->
  (- fst (seek1 L ms (c, w)) + 11.5 * Rmax (snd (seek1 L ms (c, w))) 0) * L
  < 143.75 * ms.
Proof.
  intros Hw Hreach.
  pose proof (seek1_speed c w Hw) as Hw'.
  unfold seek1 in *. cbn [fst snd] in *.
  pose proof (pull_back c) as Hback.
  set (g := c * (1 / JS.orElse (Rabs c * L) 1)
            * Rmin (Rabs c * L * 0.1) ms) in *.
  set (w' := (w + g) * 0.92) in *.
  intros Hc'.
  destruct (Rlt_dec c 0) as [Hc | Hc].
  - specialize (Hreach Hc). specialize (Hback Hc).
    pose proof (Rmax_l w 0) as Hmw. pose proof (Rmax_r w 0) as Hm0.
    apply Rle_lt_trans with ((- c + 11.5 * Rmax w 0) * L); [|exact Hreach].
    apply Rmult_le_compat_r; [lra|].
    destruct (Rle_dec 0 w') as [Hpos | Hneg].
    + rewrite (Rmax_left w' 0) by exact Hpos. unfold w' in *. lra.
    + rewrite (Rmax_right w' 0) by lra. lra.
  - assert (Hpos : 0 < w') by lra.
    rewrite (Rmax_left w' 0) by lra.
    rewrite (Rabs_pos_eq w') in Hw' by lra.
    apply Rle_lt_trans with (12.5 * (w' * L)); [|lra].
    assert (0 <= c * L) by (apply Rmult_le_pos; lra).
    lra.
Qed.

Lemma seek1For_reach (n : nat) :
  Rabs (snd (seek1For L ms n (1, 0))) * L < 11.5 * ms
  /\ (fst (seek1For L ms n (1, 0)) < 0 ->
      (- fst (seek1For L ms n (1, 0))
       + 11.5 * Rmax (snd (seek1For L ms n (1, 0))) 0) * L < 143.75 * ms).
Proof.
  induction n as [|n IH].
  - cbn [seek1For fst snd]. rewrite Rabs_R0. split; [lra|]. intros H. lra.
  - destruct IH as [Hw Hreach]. cbn [seek1For].
    destruct (seek1For L ms n (1, 0)) as [c w]. cbn [fst snd] in Hw, Hreach.
    split; [now apply seek1_speed | now apply seek1_reach].
Qed.

(** Beyond the target the particle is never further than 143.75 times the
    cap. *)
Lemma seek1For_overshoot (n : nat) :
  fst (seek1For L ms n (1, 0)) < 0 ->
  Rabs (fst (seek1For L ms n (1, 0))) * L < 143.75 * ms.
Proof.
  intros Hc. destruct (seek1For_reach n) as [_ Hreach].
  specialize (Hreach Hc).
  rewrite (Rabs_left _ Hc).
  pose proof (Rmax_r (snd (seek1For L ms n (1, 0))) 0) as Hm.
  apply Rle_lt_trans
    with ((- fst (seek1For L ms n (1, 0))
           + 11.5 * Rmax (snd (seek1For L ms n (1, 0))) 0) * L);
    [|exact Hreach].
  apply Rmult_le_compat_r; lra.
Qed.

End Line.

End SeekFacts.

(** ** The animation loop *)

Module FrameFacts.
Import THREE ParticleSystem Wording FrameSpec.

Lemma lerpChannel_length (buf : list R) (k : nat) (t : R) :
  List.length (lerpChannel buf k t) = List.length buf.
Proof. apply JSFacts.store_length. Qed.

Lemma lerpChannel_same (buf : list R) (k : nat) (t : R) :
  (k < List.length buf)%nat ->
  JS.load (lerpChannel buf k t) k = lerp (JS.load buf k) t.
Proof. intros H. unfold lerpChannel. now rewrite JSFacts.load_store_same. Qed.

Lemma lerpChannel_other (buf : list R) (k k' : nat) (t : R) :
  k <> k' -> JS.load (lerpChannel buf k t) k' = JS.load buf k'.
Proof. intros H. unfold lerpChannel. now rewrite JSFacts.load_store_other. Qed.

Section PassFacts.
Variable mode : Z.
Variable dispersion : R.
Variable hasHand : bool.
Variable time : R.
Variable targets : Targets.

Local Abbreviation animate := (animate mode dispersion hasHand time targets).
Local Abbreviation animated := (animated mode dispersion hasHand time targets).

Lemma animated_refl (i : nat) (s : Scene) : animated i 0 s s.
Proof. constructor; auto; intros; lia. Qed.

(** The body of the loop for particle [i]. *)
Lemma animate_one (i : nat) (s : Scene) :
  (i < List.length (particles s))%nat ->
  (i * 3 + 2 < List.length (positions s))%nat ->
  (i * 3 + 2 < List.length (colors s))%nat ->
  exists s', animate i s = Some s' /\ animated i 1 s s'.
Proof.
  intros Hp Hpos Hcol.
  destruct (nth_error (particles s) i) as [p|] eqn:Hnth.
  2:{ apply nth_error_None in Hnth. lia. }
  unfold ParticleSystem.animate. rewrite Hnth.
  eexists. split; [reflexivity|].
  constructor; cbn [particles positions colors rotationY].
  - apply JSFacts.store_length.
  - now rewrite !JSFacts.store_length.
  - now rewrite !lerpChannel_length.
  - reflexivity.
  - intros j q Hj Hq. assert (j = i) by lia. subst j.
    rewrite Hnth in Hq. injection Hq as <-.
    now apply JSFacts.nth_error_store_same.
  - intros j Hj. apply JSFacts.nth_error_store_other. lia.
  - intros j Hj. assert (j = i) by lia. subst j.
    repeat split.
    + rewrite !lerpChannel_other by lia. apply lerpChannel_same. lia.
    + rewrite lerpChannel_other by lia.
      rewrite lerpChannel_same by (rewrite lerpChannel_length; lia).
      now rewrite lerpChannel_other by lia.
    + rewrite lerpChannel_same by (rewrite !lerpChannel_length; lia).
      now rewrite !lerpChannel_other by lia.
  - intros k Hk. rewrite !lerpChannel_other by lia. reflexivity.
  - intros j q Hj Hq. assert (j = i) by lia. subst j.
    rewrite JSFacts.nth_error_store_same in Hq by exact Hp.
    injection Hq as <-.
    repeat split.
    + rewrite !JSFacts.load_store_other by lia.
      apply JSFacts.load_store_same. lia.
    + rewrite JSFacts.load_store_other by lia.
      apply JSFacts.load_store_same. rewrite JSFacts.store_length. lia.
    + apply JSFacts.load_store_same. rewrite !JSFacts.store_length. lia.
  - intros k Hk. rewrite !JSFacts.load_store_other by lia. reflexivity.
Qed.

(** Passes compose: slot [i] first, then the slots after it. *)
Lemma animated_cons (i n : nat) (s s1 s' : Scene) :
  animated i 1 s s1 -> animated (S i) n s1 s' -> animated i (S n) s s'.
Proof.
  intros H1 H2. constructor.
  - rewrite (an_particles_len _ _ _ _ _ _ _ _ _ H2).
    apply (an_particles_len _ _ _ _ _ _ _ _ _ H1).
  - rewrite (an_positions_len _ _ _ _ _ _ _ _ _ H2).
    apply (an_positions_len _ _ _ _ _ _ _ _ _ H1).
  - rewrite (an_colors_len _ _ _ _ _ _ _ _ _ H2).
    apply (an_colors_len _ _ _ _ _ _ _ _ _ H1).
  - rewrite (an_rotation _ _ _ _ _ _ _ _ _ H2).
    apply (an_rotation _ _ _ _ _ _ _ _ _ H1).
  - intros j p Hj Hp.
    destruct (Nat.eq_dec j i) as [-> | Hne].
    + rewrite (an_particle_out _ _ _ _ _ _ _ _ _ H2) by lia.
      apply (an_particle_in _ _ _ _ _ _ _ _ _ H1); [lia | exact Hp].
    + apply (an_particle_in _ _ _ _ _ _ _ _ _ H2); [lia|].
      rewrite (an_particle_out _ _ _ _ _ _ _ _ _ H1) by lia. exact Hp.
  - intros j Hj.
    rewrite (an_particle_out _ _ _ _ _ _ _ _ _ H2) by lia.
    apply (an_particle_out _ _ _ _ _ _ _ _ _ H1). lia.
  - intros j Hj.
    destruct (Nat.eq_dec j i) as [-> | Hne].
    + rewrite !(an_color_out _ _ _ _ _ _ _ _ _ H2) by lia.
      apply (an_color_in _ _ _ _ _ _ _ _ _ H1). lia.
    + rewrite <- !(an_color_out _ _ _ _ _ _ _ _ _ H1) by lia.
      apply (an_color_in _ _ _ _ _ _ _ _ _ H2). lia.
  - intros k Hk.
    rewrite (an_color_out _ _ _ _ _ _ _ _ _ H2) by lia.
    apply (an_color_out _ _ _ _ _ _ _ _ _ H1). lia.
  - intros j p Hj Hp.
    destruct (Nat.eq_dec j i) as [-> | Hne].
    + rewrite !(an_position_out _ _ _ _ _ _ _ _ _ H2) by lia.
      apply (an_position_in _ _ _ _ _ _ _ _ _ H1); [lia|].
      rewrite <- (an_particle_out _ _ _ _ _ _ _ _ _ H2) by lia. exact Hp.
    + apply (an_position_in _ _ _ _ _ _ _ _ _ H2); [lia | exact Hp].
  - intros k Hk.
    rewrite (an_position_out _ _ _ _ _ _ _ _ _ H2) by lia.
    apply (an_position_out _ _ _ _ _ _ _ _ _ H1). lia.
Qed.

(** The loop does not throw on a scene that holds the particles it
    visits, and it is a pass over them. *)
Lemma forLoop_animated (n : nat) :
  forall (i : nat) (s : Scene),
    (i + n <= List.length (particles s))%nat ->
    ((i + n) * 3 <= List.length (positions s))%nat ->
    ((i + n) * 3 <= List.length (colors s))%nat ->
    exists s', JS.forLoop animate i n s = Some s' /\ animated i n s s'.
Proof.
  induction n as [|n IH]; intros i s Hp Hpos Hcol; cbn [JS.forLoop].
  - exists s. split; [reflexivity | apply animated_refl].
  - destruct (animate_one i s) as (s1 & Hs1 & H1); try lia.
    rewrite Hs1.
    destruct (IH (S i) s1) as (s' & Hs' & H2).
    + rewrite (an_particles_len _ _ _ _ _ _ _ _ _ H1). lia.
    + rewrite (an_positions_len _ _ _ _ _ _ _ _ _ H1). lia.
    + rewrite (an_colors_len _ _ _ _ _ _ _ _ _ H1). lia.
    + exists s'. split; [exact Hs' | now apply animated_cons with s1].
Qed.

(** One frame on a well-formed scene with the mesh mounted. *)
Lemma useFrame_animated (s : Scene) :
  wellFormed s ->
  exists s',
    useFrame mode dispersion hasHand time targets true s = Some s'
    /\ wellFormed s'
    /\ rotationY s' = time * 0.05
    /\ exists s0, animated 0 PARTICLE_COUNT s s0
                  /\ particles s' = particles s0
                  /\ positions s' = positions s0
                  /\ colors s' = colors s0.
Proof.
  intros (Hp & Hpos & Hcol).
  destruct (forLoop_animated PARTICLE_COUNT 0 s) as (s0 & Hs0 & Ha);
    try (rewrite ?Hp, ?Hpos, ?Hcol; apply Nat.le_refl).
  unfold useFrame. cbn [negb]. rewrite Hs0.
  eexists. split; [reflexivity|]. cbn [particles positions colors rotationY].
  split.
  { unfold wellFormed. cbn [particles positions colors].
    rewrite (an_particles_len _ _ _ _ _ _ _ _ _ Ha),
      (an_positions_len _ _ _ _ _ _ _ _ _ Ha),
      (an_colors_len _ _ _ _ _ _ _ _ _ Ha). auto. }
  split; [reflexivity|]. exists s0. auto.
Qed.

End PassFacts.

End FrameFacts.

(** ** The simulation step of every particle *)

Module ParticleSystemSpec.
Import THREE ParticleSystem Wording FrameSpec THREEFacts PhysicsFacts FrameFacts
  SeekFacts.

Lemma nth_error_wellFormed (s : Scene) (i : nat) :
  wellFormed s -> (i < PARTICLE_COUNT)%nat ->
  exists p, nth_error (particles s) i = Some p.
Proof.
  intros (Hp & _) Hi.
  destruct (nth_error (particles s) i) as [p|] eqn:E; [now exists p|].
  apply nth_error_None in E. lia.
Qed.

(** C4.  In every frame, for every particle: force = target - position,
    dist = |force|, maxSpeed = 0.5 + 1.5 * dispersion, the force is rescaled
    to the direction of target - position with magnitude
    min(dist * 0.1, maxSpeed), then velocity = (velocity + force) * 0.92 and
    position = position + velocity, in that order; the position buffer
    takes the new position. *)
Theorem C4_seek_update_every_particle
  (mode : Z) (dispersion : R) (hasHand : bool) (time : R) (targets : Targets)
  (s : Scene) :
  wellFormed s ->
  exists s',
    useFrame mode dispersion hasHand time targets true s = Some s'
    /\ forall i, (i < PARTICLE_COUNT)%nat ->
         exists p p',
           nth_error (particles s) i = Some p
           /\ nth_error (particles s') i = Some p'
           /\ seekUpdated dispersion
                (targetVec mode dispersion hasHand time targets i) p p'
           /\ JS.load (positions s') (i * 3) = x (position p')
           /\ JS.load (positions s') (i * 3 + 1) = y (position p')
           /\ JS.load (positions s') (i * 3 + 2) = z (position p').
Proof.
  intros Hwf.
  destruct (useFrame_animated mode dispersion hasHand time targets s Hwf)
    as (s' & Hs' & _ & _ & s0 & Ha & Hpart & Hpos & _).
  exists s'. split; [exact Hs'|].
  intros i Hi.
  destruct (nth_error_wellFormed s i Hwf Hi) as (p & Hp).
  exists p, (physics dispersion (targetVec mode dispersion hasHand time targets i) p).
  assert (Hp' : nth_error (particles s0) i
                = Some (physics dispersion
                          (targetVec mode dispersion hasHand time targets i) p)).
  { apply (an_particle_in _ _ _ _ _ _ _ _ _ Ha); [lia | exact Hp]. }
  rewrite Hpart, Hpos.
  split; [exact Hp|]. split; [exact Hp'|].
  split; [apply physics_seekUpdated|].
  apply (an_position_in _ _ _ _ _ _ _ _ _ Ha); [lia | exact Hp'].
Qed.

(** The scene the component builds is well formed, and its particles are
    at rest. *)
Lemma wellFormed_initialScene (random : nat -> Vector3) :
  wellFormed (initialScene random).
Proof.
  unfold wellFormed, initialScene, initParticles, newFloat32Array.
  cbn [particles positions colors].
  now rewrite length_map, length_seq, !repeat_length.
Qed.

Lemma nth_error_initialScene (random : nat -> Vector3) (i : nat) :
  (i < PARTICLE_COUNT)%nat ->
  nth_error (particles (initialScene random)) i
  = Some {| position := random i; velocity := origin; targetIndex := i |}.
Proof.
  intros Hi. unfold initialScene, initParticles. cbn [particles].
  rewrite nth_error_map, nth_error_seq.
  destruct (Nat.ltb_spec i PARTICLE_COUNT) as [_ | Hge]; [reflexivity | lia].
Qed.

Lemma wellFormed_restScene : wellFormed Samples.restScene.
Proof. apply wellFormed_initialScene. Qed.

Lemma length_pointTarget : length (sub Samples.pointTarget origin) = 5.
Proof.
  unfold length, sub, Samples.pointTarget, origin. simpl.
  replace ((3 - 0) * (3 - 0) + (4 - 0) * (4 - 0) + (0 - 0) * (0 - 0))
    with (5 * 5) by lra.
  apply sqrt_square. lra.
Qed.

Lemma targetVec_calm (i : nat) (time : R) :
  targetVec 1 0 true time Samples.pointTargets i = Samples.pointTarget.
Proof.
  unfold targetVec, hasTargets, currentTargets, Samples.pointTargets.
  cbn [List.length Nat.ltb Nat.leb andb].
  rewrite Nat.mod_1_r. cbn [nth].
  assert (E : JS.ltb 0.1 0 = false) by (apply JSFacts.ltb_false; lra).
  now rewrite E.
Qed.

Lemma C4_seek_update_every_particle_witness :
  wellFormed Samples.restScene
  /\ exists s',
       useFrame 1 0 true 0 Samples.pointTargets true Samples.restScene = Some s'
       /\ nth_error (particles s') 7
          = Some {| position := {| x := 0.276; y := 0.368; z := 0 |};
                    velocity := {| x := 0.276; y := 0.368; z := 0 |};
                    targetIndex := 7 |}.
Proof.
  split; [exact wellFormed_restScene|].
  destruct (C4_seek_update_every_particle 1 0 true 0 Samples.pointTargets
              Samples.restScene wellFormed_restScene) as (s' & Hs' & Hall).
  exists s'. split; [exact Hs'|].
  assert (H7 : (7 < PARTICLE_COUNT)%nat) by (unfold PARTICLE_COUNT; lia).
  destruct (Hall 7%nat H7) as (p & p' & Hp & Hp' & Hseek & _).
  unfold Samples.restScene in Hp.
  rewrite nth_error_initialScene in Hp by exact H7. injection Hp as <-.
  rewrite Hp'. f_equal.
  rewrite targetVec_calm in Hseek.
  destruct Hseek as (force & Hdir & _ & _ & Hv & Hpos & Hti).
  cbn [position velocity targetIndex] in *.
  rewrite length_pointTarget in Hdir.
  specialize (Hdir ltac:(lra)).
  assert (Hmin : Rmin (5 * 0.1) (0.5 + 1.5 * 0) = 0.5).
  { unfold Rmin. destruct (Rle_dec (5 * 0.1) (0.5 + 1.5 * 0)); lra. }
  rewrite Hmin in Hdir.
  destruct p' as [pos' vel' ti']. cbn [position velocity targetIndex] in *.
  subst ti' pos' vel' force.
  f_equal; apply vec_eq; simpl; lra.
Defined.

(** *** Colour smoothing *)

Lemma smoothed_0 (c0 t : R) : smoothed 0 c0 t = c0.
Proof. unfold smoothed. cbn [pow]. lra. Qed.

Lemma smoothed_lerp (n : nat) (c0 t : R) :
  smoothed n (lerp c0 t) t = smoothed (S n) c0 t.
Proof.
  unfold smoothed, lerp. cbn [pow].
  replace 0.95 with (1 - 0.05) by lra. ring.
Qed.

Lemma smoothed_S (n : nat) (c0 t : R) :
  smoothed (S n) c0 t = lerp (smoothed n c0 t) t.
Proof.
  unfold smoothed, lerp. cbn [pow].
  replace 0.95 with (1 - 0.05) by lra. ring.
Qed.

Lemma pow_095_range (n : nat) : 0 < 0.95 ^ n <= 1.
Proof.
  induction n as [|n IH]; cbn [pow]; [lra|]. destruct IH as [H0 H1]. nra.
Qed.

Lemma smoothed_between (n : nat) (c0 t : R) :
  (c0 <= t -> c0 <= smoothed n c0 t <= t)
  /\ (t <= c0 -> t <= smoothed n c0 t <= c0).
Proof.
  unfold smoothed. destruct (pow_095_range n) as [H0 H1].
  split; intros; nra.
Qed.

Lemma smoothed_gap (n : nat) (c0 t : R) :
  Rabs (t - smoothed (S n) c0 t) = 0.95 * Rabs (t - smoothed n c0 t).
Proof.
  unfold smoothed. cbn [pow].
  replace (t - (t + 0.95 * 0.95 ^ n * (c0 - t)))
    with (0.95 * (t - (t + 0.95 ^ n * (c0 - t)))) by ring.
  rewrite Rabs_mult, (Rabs_pos_eq 0.95) by lra. reflexivity.
Qed.

Lemma smoothed_converges (c0 t eps : R) :
  0 < eps ->
  exists N, forall n, (N <= n)%nat -> Rabs (t - smoothed n c0 t) < eps.
Proof.
  intros Heps.
  assert (Hd : 0 < Rabs (c0 - t) + 1) by (pose proof (Rabs_pos (c0 - t)); lra).
  destruct (pow_lt_1_zero 0.95) with (y := eps / (Rabs (c0 - t) + 1))
    as [N HN].
  - rewrite Rabs_pos_eq; lra.
  - apply Rdiv_lt_0_compat; lra.
  - exists N. intros n Hn. unfold smoothed.
    replace (t - (t + 0.95 ^ n * (c0 - t))) with (- (0.95 ^ n * (c0 - t))) by ring.
    rewrite Rabs_Ropp, Rabs_mult.
    specialize (HN n ltac:(lia)).
    pose proof (Rabs_pos (0.95 ^ n)) as Hp.
    pose proof (Rabs_pos (c0 - t)) as Hq.
    apply Rle_lt_trans with (Rabs (0.95 ^ n) * (Rabs (c0 - t) + 1)); [nra|].
    apply Rmult_lt_reg_r with (/ (Rabs (c0 - t) + 1)).
    + apply Rinv_0_lt_compat. exact Hd.
    + rewrite Rmult_assoc, Rinv_r by lra. rewrite Rmult_1_r. exact HN.
Qed.

Lemma palette_range (mode : Z) (hasHand : bool) (k : nat) :
  0 <= channelOf (targetColor mode hasHand) k <= 1.
Proof.
  unfold channelOf, targetColor, color1, color2, color3, colorIdle, hex.
  destruct hasHand, (mode =? 1)%Z, (mode =? 2)%Z, (mode =? 3)%Z,
    (k mod 3)%nat as [|[|]]; simpl; lra.
Qed.

(** One frame smooths every slot of the colour buffer once. *)
Lemma useFrame_colors
  (mode : Z) (dispersion : R) (hasHand : bool) (time : R) (targets : Targets)
  (s : Scene) :
  wellFormed s ->
  exists s',
    useFrame mode dispersion hasHand time targets true s = Some s'
    /\ wellFormed s'
    /\ forall k, (k < PARTICLE_COUNT * 3)%nat ->
         JS.load (colors s') k
         = lerp (JS.load (colors s) k) (channelOf (targetColor mode hasHand) k).
Proof.
  intros Hwf.
  destruct (useFrame_animated mode dispersion hasHand time targets s Hwf)
    as (s' & Hs' & Hwf' & _ & s0 & Ha & _ & _ & Hcol).
  exists s'. split; [exact Hs'|]. split; [exact Hwf'|].
  intros k Hk. rewrite Hcol.
  pose proof (Nat.div_mod k 3 ltac:(lia)) as Hdm.
  pose proof (Nat.mod_upper_bound k 3 ltac:(lia)) as Hm.
  assert (Hj : (0 <= k / 3 < 0 + PARTICLE_COUNT)%nat).
  { split; [lia|]. apply Nat.Div0.div_lt_upper_bound. lia. }
  destruct (an_color_in _ _ _ _ _ _ _ _ _ Ha (k / 3)%nat Hj) as (Hr & Hg & Hb).
  unfold channelOf.
  destruct (k mod 3)%nat as [|[|[|m]]] eqn:Em; try lia.
  - assert (Ek : (k / 3 * 3)%nat = k) by lia. rewrite Ek in Hr. exact Hr.
  - assert (Ek : (k / 3 * 3 + 1)%nat = k) by lia. rewrite Ek in Hg. exact Hg.
  - assert (Ek : (k / 3 * 3 + 2)%nat = k) by lia. rewrite Ek in Hb. exact Hb.
Qed.

Lemma frames_app (mode : Z) (hasHand : bool) (ts us : list Tick) (s : Scene) :
  frames mode hasHand (ts ++ us) s
  = match frames mode hasHand ts s with
    | Some s1 => frames mode hasHand us s1
    | None => None
    end.
Proof.
  revert s. induction ts as [|t ts IH]; intros s; simpl; [reflexivity|].
  destruct (useFrame mode (tickDispersion t) hasHand (tickTime t)
              (tickTargets t) true s); [apply IH | reflexivity].
Qed.

(** A run of frames smooths every slot once per frame. *)
Lemma frames_colors (mode : Z) (hasHand : bool) (ticks : list Tick) :
  forall s : Scene,
    wellFormed s ->
    exists s',
      frames mode hasHand ticks s = Some s'
      /\ wellFormed s'
      /\ forall k, (k < PARTICLE_COUNT * 3)%nat ->
           JS.load (colors s') k
           = smoothed (List.length ticks) (JS.load (colors s) k)
               (channelOf (targetColor mode hasHand) k).
Proof.
  induction ticks as [|t ticks IH]; intros s Hwf; cbn [frames List.length].
  - exists s. split; [reflexivity|]. split; [exact Hwf|].
    intros k _. now rewrite smoothed_0.
  - destruct (useFrame_colors mode (tickDispersion t) hasHand (tickTime t)
                (tickTargets t) s Hwf) as (s1 & Hs1 & Hwf1 & Hc1).
    rewrite Hs1.
    destruct (IH s1 Hwf1) as (s' & Hs' & Hwf' & Hc').
    exists s'. split; [exact Hs'|]. split; [exact Hwf'|].
    intros k Hk. rewrite (Hc' k Hk), (Hc1 k Hk). apply smoothed_lerp.
Qed.

(** C9.  In every frame every colour channel of every particle moves by
    channel += (targetChannel - channel) * 0.05; with channel and target in
    [0,1] the new value is in [0,1]; under a fixed target colour the channel
    stays on its side of the target, its gap to the target shrinks by the
    factor 0.95 per frame, and it converges to the target. *)
Theorem C9_color_channels_smooth
  (mode : Z) (hasHand : bool) (s : Scene) (ticks : list Tick) (k : nat) :
  wellFormed s ->
  (k < PARTICLE_COUNT * 3)%nat ->
  let t := channelOf (targetColor mode hasHand) k in
  let c0 := JS.load (colors s) k in
  0 <= t <= 1
  /\ (exists s',
        frames mode hasHand ticks s = Some s'
        /\ let cn := JS.load (colors s') k in
           cn = t + 0.95 ^ List.length ticks * (c0 - t)
           /\ (c0 <= t -> c0 <= cn <= t)
           /\ (t <= c0 -> t <= cn <= c0)
           /\ (0 <= c0 <= 1 -> 0 <= cn <= 1)
           /\ forall tick, exists s'',
                useFrame mode (tickDispersion tick) hasHand (tickTime tick)
                  (tickTargets tick) true s' = Some s''
                /\ frames mode hasHand (ticks ++ [tick]) s = Some s''
                /\ JS.load (colors s'') k = cn + (t - cn) * 0.05
                /\ (0 <= cn <= 1 -> 0 <= JS.load (colors s'') k <= 1)
                /\ Rabs (t - JS.load (colors s'') k) = 0.95 * Rabs (t - cn))
  /\ (forall eps, 0 < eps ->
        exists N, forall later, (N <= List.length later)%nat ->
          exists s', frames mode hasHand later s = Some s'
                     /\ Rabs (t - JS.load (colors s') k) < eps).
Proof.
  intros Hwf Hk t c0.
  pose proof (palette_range mode hasHand k) as Ht. fold t in Ht.
  split; [exact Ht|]. split.
  - destruct (frames_colors mode hasHand ticks s Hwf) as (s' & Hs' & Hwf' & Hc).
    exists s'. split; [exact Hs'|]. cbv zeta.
    rewrite (Hc k Hk). fold t. fold c0.
    destruct (smoothed_between (List.length ticks) c0 t) as [Hup Hdown].
    split; [reflexivity|]. split; [exact Hup|]. split; [exact Hdown|].
    split.
    { intros Hc0. destruct (Rle_dec c0 t) as [Hle | Hgt].
      - specialize (Hup Hle). lra.
      - specialize (Hdown ltac:(lra)). lra. }
    intros tick.
    destruct (useFrame_colors mode (tickDispersion tick) hasHand
                (tickTime tick) (tickTargets tick) s' Hwf')
      as (s'' & Hs'' & _ & Hc'').
    exists s''. split; [exact Hs''|].
    split. { rewrite frames_app, Hs'. cbn [frames]. now rewrite Hs''. }
    rewrite (Hc'' k Hk), (Hc k Hk). fold t. fold c0.
    split; [reflexivity|]. split.
    { intros Hcn. unfold lerp. lra. }
    rewrite <- smoothed_S. apply smoothed_gap.
  - intros eps Heps.
    destruct (smoothed_converges c0 t eps Heps) as [N HN].
    exists N. intros later Hlen.
    destruct (frames_colors mode hasHand later s Hwf) as (s' & Hs' & _ & Hc).
    exists s'. split; [exact Hs'|].
    rewrite (Hc k Hk). fold t. fold c0. now apply HN.
Qed.

Lemma C9_color_channels_smooth_witness :
  wellFormed Samples.restScene
  /\ (1 < PARTICLE_COUNT * 3)%nat
  /\ exists s',
       frames 1 true [Samples.calmTick; Samples.calmTick] Samples.restScene
       = Some s'
       /\ JS.load (colors s') 1 = 0.0975.
Proof.
  assert (H1 : (1 < PARTICLE_COUNT * 3)%nat) by (unfold PARTICLE_COUNT; lia).
  split; [exact wellFormed_restScene|]. split; [exact H1|].
  destruct (C9_color_channels_smooth 1 true Samples.restScene
              [Samples.calmTick; Samples.calmTick] 1
              wellFormed_restScene H1)
    as (_ & (s' & Hs' & Hcn & _) & _).
  exists s'. split; [exact Hs'|].
  rewrite Hcn.
  unfold Samples.restScene, initialScene, newFloat32Array, JS.load.
  cbn [colors List.length pow]. rewrite nth_repeat.
  unfold channelOf, targetColor, color1, hex. simpl. lra.
Defined.

(** *** Steady state *)

Lemma targetVec_text_no_noise
  (mode : Z) (dispersion time : R) (targets : Targets) (pts : list Vector3)
  (i : nat) :
  targets mode = Some pts -> pts <> [] -> dispersion <= 0.1 ->
  nth_error pts (i mod List.length pts)
  = Some (targetVec mode dispersion true time targets i).
Proof.
  intros Ht Hne Hd.
  unfold targetVec, hasTargets, currentTargets. rewrite Ht.
  assert (Hlen : (0 < List.length pts)%nat).
  { destruct pts; simpl; [congruence | lia]. }
  destruct (Nat.ltb_spec 0 (List.length pts)) as [_ | Hge]; [|lia].
  cbn [andb].
  assert (E : JS.ltb 0.1 dispersion = false) by (apply JSFacts.ltb_false; lra).
  rewrite E. apply nth_error_nth'. apply Nat.mod_upper_bound. lia.
Qed.

(** C8.  With dispersion 0, an active hand and a non-empty point set for the
    mode, the target of particle i is TextPointSet[i mod |TextPointSet|] with
    no noise added, and the step has exactly one steady state: the particle
    on that target with zero velocity.  The same holds for the particle's
    slot in a whole frame. *)
Theorem C8_steady_state_is_target
  (mode : Z) (time : R) (targets : Targets) (pts : list Vector3) (i : nat) :
  targets mode = Some pts ->
  pts <> [] ->
  let target := targetVec mode 0 true time targets i in
  nth_error pts (i mod List.length pts) = Some target
  /\ (forall p, physics 0 target p = p
                <-> position p = target /\ velocity p = origin)
  /\ (forall s, wellFormed s -> (i < PARTICLE_COUNT)%nat ->
        exists s' p,
          useFrame mode 0 true time targets true s = Some s'
          /\ nth_error (particles s) i = Some p
          /\ (nth_error (particles s') i = Some p
              <-> position p = target /\ velocity p = origin)).
Proof.
  intros Ht Hne target.
  assert (Hfix : forall p, physics 0 target p = p
                           <-> position p = target /\ velocity p = origin).
  { intros p. split.
    - apply physics_fixed_point. lra.
    - intros [Hp Hv]. now apply physics_at_rest. }
  split; [apply (targetVec_text_no_noise mode 0 time targets pts i Ht Hne); lra|].
  split; [exact Hfix|].
  intros s Hwf Hi.
  destruct (useFrame_animated mode 0 true time targets s Hwf)
    as (s' & Hs' & _ & _ & s0 & Ha & Hpart & _ & _).
  destruct (nth_error_wellFormed s i Hwf Hi) as (p & Hp).
  exists s', p. split; [exact Hs'|]. split; [exact Hp|].
  rewrite Hpart.
  rewrite (an_particle_in _ _ _ _ _ _ _ _ _ Ha i p ltac:(lia) Hp).
  fold target. rewrite <- Hfix.
  split; [intros H; now injection H | intros H; now rewrite H].
Qed.

Lemma C8_steady_state_is_target_witness :
  let p := {| position := Samples.pointTarget; velocity := origin;
              targetIndex := 5 |} in
  Samples.pointTargets 1%Z = Some [Samples.pointTarget]
  /\ [Samples.pointTarget] <> []
  /\ targetVec 1 0 true 0 Samples.pointTargets 5 = Samples.pointTarget
  /\ physics 0 Samples.pointTarget p = p.
Proof.
  intros p.
  assert (Hne : [Samples.pointTarget] <> []) by discriminate.
  split; [reflexivity|]. split; [exact Hne|].
  destruct (C8_steady_state_is_target 1 0 Samples.pointTargets
              [Samples.pointTarget] 5 eq_refl Hne) as (Hnth & Hfix & _).
  cbn [List.length nth_error] in Hnth. rewrite Nat.mod_1_r in Hnth.
  cbn [nth_error] in Hnth. injection Hnth as Htarget.
  split; [symmetry; exact Htarget|].
  rewrite Htarget at 1. apply Hfix. split; [|reflexivity].
  cbn [p position]. exact Htarget.
Defined.

(** *** Approach to a fixed target *)

Lemma seek1_linear (L ms c w : R) :
  0 < L -> Rabs c * L * 0.1 <= ms ->
  seek1 L ms (c, w) = (c - (w + c * 0.1) * 0.92, (w + c * 0.1) * 0.92).
Proof.
  intros HL Hms. unfold seek1. cbn [fst snd].
  assert (Hg : c * (1 / JS.orElse (Rabs c * L) 1)
               * Rmin (Rabs c * L * 0.1) ms = c * 0.1).
  { rewrite Rmin_left by exact Hms.
    destruct (Req_dec_T c 0) as [-> | Hne]; [ring|].
    pose proof (Rabs_pos_lt c Hne) as Ha.
    rewrite JSFacts.orElse_pos by nra. field. split; lra. }
  rewrite Hg. reflexivity.
Qed.

Lemma seek1_first (L ms : R) :
  0 < L -> 0 < ms -> 0 < fst (seek1 L ms (1, 0)).
Proof.
  intros HL Hms. unfold seek1. cbn [fst snd]. rewrite Rabs_R1.
  replace (1 * L) with L by ring.
  rewrite JSFacts.orElse_pos by exact HL.
  assert (Hm : 0 < Rmin (L * 0.1) ms <= L * 0.1).
  { unfold Rmin. destruct (Rle_dec (L * 0.1) ms); lra. }
  assert (Hq : 1 * (1 / L) * Rmin (L * 0.1) ms <= 0.1).
  { apply Rmult_le_reg_r with L; [exact HL|].
    replace (1 * (1 / L) * Rmin (L * 0.1) ms * L) with (Rmin (L * 0.1) ms)
      by (field; lra).
    lra. }
  lra.
Qed.

Lemma length_axis : length (sub Samples.axisTarget origin) = 5.
Proof.
  unfold length, sub, Samples.axisTarget, origin. simpl.
  replace ((5 - 0) * (5 - 0) + (0 - 0) * (0 - 0) + (0 - 0) * (0 - 0))
    with (5 * 5) by lra.
  apply sqrt_square. lra.
Qed.

Ltac line_step Hprev :=
  match goal with
  | |- seek1For ?L ?ms (S ?k) ?cw = ?rhs =>
      change (seek1 L ms (seek1For L ms k cw) = rhs)
  end;
  rewrite Hprev; rewrite seek1_linear;
  [ f_equal; lra
  | lra
  | unfold speedCap, Rabs;
    match goal with |- context [Rcase_abs ?v] => destruct (Rcase_abs v) end;
    lra ].

(** The line coordinates of the sample run over its first seven ticks. *)
Lemma axisRun_coordinates :
  seek1For 5 (speedCap 0) 1 (1, 0)
  = (0.908, 0.092)
  /\ seek1For 5 (speedCap 0) 2 (1, 0)
  = (0.739824, 0.168176)
  /\ seek1For 5 (speedCap 0) 3 (1, 0)
  = (0.517038272, 0.222785728)
  /\ seek1For 5 (speedCap 0) 4 (1, 0)
  = (0.264507881216, 0.252530390784)
  /\ seek1For 5 (speedCap 0) 5 (1, 0)
  = (0.007845196622848, 0.256662684593152)
  /\ seek1For 5 (speedCap 0) 6 (1, 0)
  = ((-0.229006231292153856), 0.236851427915001856)
  /\ seek1For 5 (speedCap 0) 7 (1, 0)
  = ((-0.425840971695077408768), 0.196834740402923552768).
Proof.
  assert (H0 : seek1For 5 (speedCap 0) 0 (1, 0) = (1, 0)) by reflexivity.
  assert (H1 : seek1For 5 (speedCap 0) 1 (1, 0)
               = (0.908, 0.092)).
  { line_step H0. }
  assert (H2 : seek1For 5 (speedCap 0) 2 (1, 0)
               = (0.739824, 0.168176)).
  { line_step H1. }
  assert (H3 : seek1For 5 (speedCap 0) 3 (1, 0)
               = (0.517038272, 0.222785728)).
  { line_step H2. }
  assert (H4 : seek1For 5 (speedCap 0) 4 (1, 0)
               = (0.264507881216, 0.252530390784)).
  { line_step H3. }
  assert (H5 : seek1For 5 (speedCap 0) 5 (1, 0)
               = (0.007845196622848, 0.256662684593152)).
  { line_step H4. }
  assert (H6 : seek1For 5 (speedCap 0) 6 (1, 0)
               = ((-0.229006231292153856), 0.236851427915001856)).
  { line_step H5. }
  assert (H7 : seek1For 5 (speedCap 0) 7 (1, 0)
               = ((-0.425840971695077408768), 0.196834740402923552768)).
  { line_step H6. }
  repeat split; assumption.
Qed.

Lemma axisRun_onLine (k : nat) :
  onLine Samples.axisTarget (sub Samples.axisTarget origin)
    (seek1For 5 (speedCap 0) k (1, 0)) (Samples.axisRun k).
Proof.
  rewrite <- length_axis. unfold Samples.axisRun.
  apply seekFor_onLine.
  apply (onLine_start Samples.axisTarget Samples.restParticle). reflexivity.
Qed.

(** C5 (as stated): from rest the distance to a fixed target would shrink on
    every tick until the particle is within a small epsilon of the target,
    and the particle would never be more than maxSpeed beyond the target.
    From rest in the origin towards (5, 0, 0) with dispersion 0 (maxSpeed
    0.5): after 5 ticks the particle is 0.0392 short of the target, after 6
    ticks 1.145 beyond it and after 7 ticks 2.129 beyond it.  So the
    distance grows on ticks 6 and 7, and the overshoot exceeds maxSpeed:
    neither half of the property holds for this particle. *)
Lemma C5_distance_grows_past_target :
  ~ approachesUntil 0.03 0 Samples.axisTarget Samples.restParticle
  /\ ~ overshootWithinCap 0 Samples.axisTarget Samples.restParticle
  /\ velocity (Samples.axisRun 0) = origin
  /\ position (Samples.axisRun 0) = origin
  /\ position (Samples.axisRun 5)
     = {| x := 4.96077401688576; y := 0; z := 0 |}
  /\ position (Samples.axisRun 6)
     = {| x := 6.14503115646076928; y := 0; z := 0 |}
  /\ position (Samples.axisRun 7)
     = {| x := 7.12920485847538704384; y := 0; z := 0 |}
  /\ distanceTo Samples.axisTarget (Samples.axisRun 5)
     < distanceTo Samples.axisTarget (Samples.axisRun 6)
  /\ distanceTo Samples.axisTarget (Samples.axisRun 6)
     < distanceTo Samples.axisTarget (Samples.axisRun 7)
  /\ 1 < distanceTo Samples.axisTarget (Samples.axisRun 6)
  /\ passed origin Samples.axisTarget (Samples.axisRun 6)
  /\ passed origin Samples.axisTarget (Samples.axisRun 7)
  /\ speedCap 0 < distanceTo Samples.axisTarget (Samples.axisRun 6)
  /\ speedCap 0 < distanceTo Samples.axisTarget (Samples.axisRun 7).
Proof.
  destruct axisRun_coordinates as (_ & _ & _ & _ & H5 & H6 & H7).
  pose proof (axisRun_onLine 5) as L5. rewrite H5 in L5.
  pose proof (axisRun_onLine 6) as L6. rewrite H6 in L6.
  pose proof (axisRun_onLine 7) as L7. rewrite H7 in L7.
  assert (Hne : origin <> Samples.axisTarget).
  { intros H. apply (f_equal x) in H. simpl in H. lra. }
  assert (D5 : distanceTo Samples.axisTarget (Samples.axisRun 5)
               = 0.007845196622848 * 5).
  { rewrite (onLine_distance _ _ _ _ L5), length_axis. cbn [fst].
    rewrite Rabs_pos_eq by lra. lra. }
  assert (D6 : distanceTo Samples.axisTarget (Samples.axisRun 6)
               = 0.229006231292153856 * 5).
  { rewrite (onLine_distance _ _ _ _ L6), length_axis. cbn [fst].
    rewrite Rabs_left by lra. lra. }
  assert (D7 : distanceTo Samples.axisTarget (Samples.axisRun 7)
               = 0.425840971695077408768 * 5).
  { rewrite (onLine_distance _ _ _ _ L7), length_axis. cbn [fst].
    rewrite Rabs_left by lra. lra. }
  assert (P6 : passed origin Samples.axisTarget (Samples.axisRun 6)).
  { apply (onLine_passed origin Samples.axisTarget _ _ Hne L6). cbn [fst]. lra. }
  split.
  { intros Happ. specialize (Happ 5%nat). fold (Samples.axisRun 5) in Happ.
    fold (Samples.axisRun 6) in Happ. rewrite D5, D6 in Happ. lra. }
  split.
  { intros Hcap. specialize (Hcap 6%nat P6). fold (Samples.axisRun 6) in Hcap.
    rewrite D6 in Hcap. unfold speedCap in Hcap. lra. }
  split; [reflexivity|]. split; [reflexivity|].
  split. { destruct L5 as [Hp _]. rewrite Hp. apply vec_eq; simpl; lra. }
  split. { destruct L6 as [Hp _]. rewrite Hp. apply vec_eq; simpl; lra. }
  split. { destruct L7 as [Hp _]. rewrite Hp. apply vec_eq; simpl; lra. }
  split; [rewrite D5, D6; lra|].
  split; [rewrite D6, D7; lra|].
  split; [rewrite D6; lra|].
  split; [exact P6|].
  split.
  { apply (onLine_passed origin Samples.axisTarget _ _ Hne L7). cbn [fst]. lra. }
  unfold speedCap. rewrite D6, D7. split; lra.
Qed.

(** C5 (amended).  For a particle started with zero velocity and steered
    toward a fixed target other than its start (the speed cap maxSpeed being
    positive): the distance to the target strictly decreases on every tick
    for as long as the particle has not passed the target, the first tick
    included; and at every tick a particle that is beyond the target is less
    than 143.75 * maxSpeed beyond it.  Its travel per tick stays below
    11.5 * maxSpeed, which also bounds how far beyond the target the tick
    that passes it can land. *)
Theorem C5_approach_until_passed
  (dispersion : R) (target : Vector3) (p0 : Particle) (n : nat) :
  velocity p0 = origin ->
  position p0 <> target ->
  0 < speedCap dispersion ->
  let run k := seekFor dispersion target k p0 in
  ((forall k, (k <= S n)%nat -> ~ passed (position p0) target (run k)) ->
   distanceTo target (run (S n)) < distanceTo target (run n))
  /\ distanceTo target (run 1%nat) < distanceTo target (run 0%nat)
  /\ (passed (position p0) target (run n) ->
      distanceTo target (run n) < 143.75 * speedCap dispersion)
  /\ length (velocity (run n)) < 11.5 * speedCap dispersion
  /\ (~ passed (position p0) target (run n) ->
      passed (position p0) target (run (S n)) ->
      distanceTo target (run (S n)) < 11.5 * speedCap dispersion).
Proof.
  intros Hv Hne Hms run.
  set (D := sub target (position p0)).
  set (L := length D).
  set (ms := speedCap dispersion) in *.
  assert (HL : 0 < L).
  { apply length_pos. intros H. apply sub_origin_eq in H. congruence. }
  assert (Hline : forall k, onLine target D (seek1For L ms k (1, 0)) (run k)).
  { intros k. apply seekFor_onLine. now apply onLine_start. }
  assert (Hdist : forall k,
             distanceTo target (run k) = Rabs (fst (seek1For L ms k (1, 0))) * L).
  { intros k. apply (onLine_distance _ _ _ _ (Hline k)). }
  assert (Hpassed : forall k, passed (position p0) target (run k)
                              <-> fst (seek1For L ms k (1, 0)) < 0).
  { intros k. apply onLine_passed; [exact Hne | apply Hline]. }
  assert (Hspeed : forall k, length (velocity (run k)) < 11.5 * ms).
  { intros k. rewrite (onLine_speed _ _ _ _ (Hline k)).
    apply seek1For_speed; assumption. }
  assert (Hdecr : forall m,
             (forall k, (k <= S m)%nat -> ~ passed (position p0) target (run k)) ->
             distanceTo target (run (S m)) < distanceTo target (run m)).
  { intros m Hall. rewrite !Hdist.
    apply Rmult_lt_compat_r; [exact HL|].
    apply seek1For_decreases; try assumption.
    intros k Hk. specialize (Hall k Hk). rewrite Hpassed in Hall. lra. }
  split; [apply Hdecr|].
  split.
  { apply Hdecr. intros k Hk. rewrite Hpassed.
    destruct k as [|[|k]]; [| |lia].
    - cbn [seek1For fst]. lra.
    - cbn [seek1For]. pose proof (seek1_first L ms HL Hms). lra. }
  split.
  { intros Hp. rewrite Hpassed in Hp. rewrite Hdist.
    apply seek1For_overshoot; assumption. }
  split; [apply Hspeed|].
  intros Hn HSn. rewrite Hpassed in Hn, HSn.
  apply Rle_lt_trans with (length (velocity (run (S n)))); [|apply Hspeed].
  rewrite Hdist, (onLine_speed _ _ _ _ (Hline (S n))).
  apply Rmult_le_compat_r; [apply Rlt_le; exact HL|].
  apply seek1For_landing; lra.
Qed.

Lemma axisRun_not_passed (k : nat) :
  (k <= 5)%nat -> ~ passed origin Samples.axisTarget (Samples.axisRun k).
Proof.
  intros Hk.
  assert (Hne : origin <> Samples.axisTarget).
  { intros H. apply (f_equal x) in H. simpl in H. lra. }
  rewrite (onLine_passed origin Samples.axisTarget _ _ Hne (axisRun_onLine k)).
  destruct axisRun_coordinates as (H1 & H2 & H3 & H4 & H5 & _).
  destruct k as [|[|[|[|[|[|k]]]]]]; [| | | | | |lia].
  - cbn [seek1For fst]. lra.
  - rewrite H1. cbn [fst]. lra.
  - rewrite H2. cbn [fst]. lra.
  - rewrite H3. cbn [fst]. lra.
  - rewrite H4. cbn [fst]. lra.
  - rewrite H5. cbn [fst]. lra.
Qed.

Lemma axisRun_passed_7 : passed origin Samples.axisTarget (Samples.axisRun 7).
Proof.
  assert (Hne : origin <> Samples.axisTarget).
  { intros H. apply (f_equal x) in H. simpl in H. lra. }
  apply (onLine_passed origin Samples.axisTarget _ _ Hne (axisRun_onLine 7)).
  destruct axisRun_coordinates as (_ & _ & _ & _ & _ & _ & H7).
  rewrite H7. cbn [fst]. lra.
Qed.

Lemma C5_approach_until_passed_witness :
  velocity Samples.restParticle = origin
  /\ position Samples.restParticle <> Samples.axisTarget
  /\ 0 < speedCap 0
  /\ distanceTo Samples.axisTarget (Samples.axisRun 5)
     < distanceTo Samples.axisTarget (Samples.axisRun 4)
  /\ length (velocity (Samples.axisRun 6)) < 11.5 * speedCap 0
  /\ passed origin Samples.axisTarget (Samples.axisRun 7)
  /\ distanceTo Samples.axisTarget (Samples.axisRun 7) < 143.75 * speedCap 0.
Proof.
  assert (Hne : position Samples.restParticle <> Samples.axisTarget).
  { intros H. apply (f_equal x) in H. simpl in H. lra. }
  assert (Hms : 0 < speedCap 0) by (unfold speedCap; lra).
  split; [reflexivity|]. split; [exact Hne|]. split; [exact Hms|].
  split.
  - destruct (C5_approach_until_passed 0 Samples.axisTarget
                Samples.restParticle 4 eq_refl Hne Hms) as (Hdecr & _).
    apply Hdecr. intros k Hk. apply (axisRun_not_passed k Hk).
  - destruct (C5_approach_until_passed 0 Samples.axisTarget
                Samples.restParticle 6 eq_refl Hne Hms)
      as (_ & _ & _ & Hspeed & _).
    destruct (C5_approach_until_passed 0 Samples.axisTarget
                Samples.restParticle 7 eq_refl Hne Hms)
      as (_ & _ & Hover & _).
    split; [exact Hspeed|]. split; [exact axisRun_passed_7|].
    exact (Hover axisRun_passed_7).
Defined.

End ParticleSystemSpec.

(** ** More on the gesture interpreter *)

Module AppMore.
Import MediaPipe App AppView Wording Vocabulary AppSpec.

Lemma interpret_lastVideoTimeRef (r : Results) (s : State) :
  lastVideoTimeRef (interpret r s) = lastVideoTimeRef s.
Proof. destruct r as [[|h others]|]; reflexivity. Qed.

(** X1.  Calling [predictWebcam] again on the frame it has just seen
    changes nothing: the frame is processed at most once. *)
Theorem X1_same_frame_processed_once (f : Frame) (s : State) :
  predictWebcam f (predictWebcam f s) = predictWebcam f s.
Proof.
  destruct (fresh_dec f s) as [Hf | Hf].
  - apply predictWebcam_skipped. intros [_ Ht]. apply Ht.
    rewrite (predictWebcam_fresh _ _ Hf), interpret_lastVideoTimeRef.
    reflexivity.
  - rewrite (predictWebcam_skipped _ _ Hf).
    apply (predictWebcam_skipped _ _ Hf).
Qed.

Lemma spreadNorm_range (h : Hand) : 0 <= spreadNorm h <= 1.
Proof. unfold spreadNorm. rewrite min_max_clamp. apply clamp_range. Qed.

Lemma predictWebcam_dispersion (f : Frame) (s : State) :
  0 <= dispersionFactor s <= 1 ->
  0 <= dispersionFactor (predictWebcam f s) <= 1.
Proof.
  intros Hs.
  destruct (fresh_dec f s) as [Hf | Hf].
  2:{ now rewrite (predictWebcam_skipped _ _ Hf). }
  rewrite (predictWebcam_fresh _ _ Hf).
  destruct (detect f) as [[|h others]|]; simpl; try lra.
  apply spreadNorm_range.
Qed.

(** X2.  Over every run of the interpreter from the initial state the
    dispersion handed to the simulator lies in [0,1], and the width of the
    contraction bar in [0,100] percent. *)
Theorem X2_dispersion_stays_in_unit_interval (fs : list Frame) :
  0 <= dispersion (props (run fs initialState)) <= 1
  /\ 0 <= barWidth (run fs initialState) <= 100.
Proof.
  assert (H : 0 <= dispersionFactor (run fs initialState) <= 1).
  { induction fs as [|f fs IH] using rev_ind.
    - simpl. lra.
    - rewrite run_app. simpl. now apply predictWebcam_dispersion. }
  split; [exact H|]. unfold barWidth. lra.
Qed.

(** The eight landmarks the mode is read from. *)
Lemma fingerCount_ext (h h' : Hand) :
  (forall i, In i [6; 8; 10; 12; 14; 16; 18; 20]%nat -> y (h i) = y (h' i)) ->
  fingerCount h = fingerCount h'.
Proof.
  intros H. unfold fingerCount, indexUp, middleUp, ringUp, pinkyUp, isFingerUp.
  rewrite !H by (simpl; tauto). reflexivity.
Qed.

(** X3.  The mode is read from the y-coordinates of the tips and proximal
    joints of index, middle, ring and pinky of the first hand only: the
    thumb, the wrist, the x- and z-coordinates and any further hand never
    change it. *)
Theorem X3_mode_reads_eight_heights
  (ready : bool) (t : R) (h h' : Hand) (others others' : list Hand)
  (s : State) :
  (forall i, In i [6; 8; 10; 12; 14; 16; 18; 20]%nat -> y (h i) = y (h' i)) ->
  mode (props (predictWebcam
                 {| refsReady := ready; currentTime := t;
                    detect := Some (h :: others) |} s))
  = mode (props (predictWebcam
                   {| refsReady := ready; currentTime := t;
                      detect := Some (h' :: others') |} s)).
Proof.
  intros H. unfold predictWebcam. cbn [refsReady currentTime detect].
  destruct (negb ready); [reflexivity|].
  destruct (JS.neqb (lastVideoTimeRef s) t); [|reflexivity].
  cbn. now rewrite (fingerCount_ext h h' H).
Qed.

Lemma ltb_shift (a b c : R) : JS.ltb (a + c) (b + c) = JS.ltb a b.
Proof.
  unfold JS.ltb. destruct (Rlt_dec (a + c) (b + c)), (Rlt_dec a b);
    try reflexivity; lra.
Qed.

Lemma fingerCount_shift (a b : R) (h : Hand) :
  fingerCount (shiftHand a b h) = fingerCount h.
Proof.
  unfold fingerCount, indexUp, middleUp, ringUp, pinkyUp, isFingerUp, shiftHand.
  cbn [y]. now rewrite !ltb_shift.
Qed.

Lemma addTipDist_shift (a b : R) (h : Hand) (acc : R) (idx : nat) :
  addTipDist (shiftHand a b h) acc idx = addTipDist h acc idx.
Proof.
  unfold addTipDist, shiftHand. cbn [x y]. f_equal. f_equal. ring.
Qed.

Lemma spreadNorm_shift (a b : R) (h : Hand) :
  spreadNorm (shiftHand a b h) = spreadNorm h.
Proof.
  unfold spreadNorm, avgSpread, tips. cbn [fold_left].
  now rewrite !addTipDist_shift.
Qed.

(** X4.  Moving the hand across the image without changing its pose changes
    nothing: a first hand translated by any (a, b) gives the same state as
    the hand itself. *)
Theorem X4_pose_translation_invariant
  (ready : bool) (t a b : R) (h : Hand) (others : list Hand) (s : State) :
  predictWebcam {| refsReady := ready; currentTime := t;
                   detect := Some (shiftHand a b h :: others) |} s
  = predictWebcam {| refsReady := ready; currentTime := t;
                     detect := Some (h :: others) |} s.
Proof.
  unfold predictWebcam. cbn [refsReady currentTime detect].
  destruct (negb ready); [reflexivity|].
  destruct (JS.neqb (lastVideoTimeRef s) t); [|reflexivity].
  unfold interpret, onHands.
  now rewrite fingerCount_shift, spreadNorm_shift.
Qed.

Lemma run_textMode (fs : list Frame) : textMode (targetMode (run fs initialState)).
Proof.
  induction fs as [|f fs IH] using rev_ind.
  - left. reflexivity.
  - rewrite run_app. simpl. now apply predictWebcam_mode.
Qed.

(** X5.  Over every run from the initial state the gesture list of the
    overlay highlights the entry of the current mode exactly when a hand is
    active: with a hand exactly one of the three entries is highlighted,
    without a hand none. *)
Theorem X5_one_gesture_highlighted (fs : list Frame) :
  let s := run fs initialState in
  (forall k, gestureHighlighted k s = true
             <-> hasHand (props s) = true /\ mode (props s) = k)
  /\ (hasHand (props s) = true ->
      exists k, (k = 1 \/ k = 2 \/ k = 3)%Z
                /\ forall j, (j = 1 \/ j = 2 \/ j = 3)%Z ->
                     (gestureHighlighted j s = true <-> j = k))
  /\ (hasHand (props s) = false -> forall k, gestureHighlighted k s = false).
Proof.
  intros s.
  assert (Hiff : forall k, gestureHighlighted k s = true
                           <-> hasHand (props s) = true /\ mode (props s) = k).
  { intros k. unfold gestureHighlighted. cbn [props hasHand mode].
    rewrite andb_true_iff, Z.eqb_eq. tauto. }
  split; [exact Hiff|]. split.
  - intros Hh. exists (targetMode s). split; [apply run_textMode|].
    intros j _. rewrite Hiff. cbn [props mode]. split.
    + intros [_ E]. now symmetry.
    + intros ->. auto.
  - intros Hh k. destruct (gestureHighlighted k s) eqn:E; [|reflexivity].
    apply Hiff in E. destruct E as [E _]. congruence.
Qed.

Lemma clamp_monotone (u v : R) : u <= v -> clamp u 0 1 <= clamp v 0 1.
Proof.
  intros H. unfold clamp.
  destruct (Rlt_dec u 0), (Rlt_dec v 0), (Rlt_dec 1 u), (Rlt_dec 1 v); lra.
Qed.

Lemma X3_mode_reads_eight_heights_witness :
  (forall i, In i [6; 8; 10; 12; 14; 16; 18; 20]%nat ->
             y (Samples.victoryHand i) = y (Samples.victoryHandThumbOut i))
  /\ mode (props (predictWebcam
                    (Samples.frameOf 0 (Some [Samples.victoryHand]))
                    initialState))
     = mode (props (predictWebcam
                      (Samples.frameOf 0
                         (Some [Samples.victoryHandThumbOut; Samples.pointHand]))
                      initialState)).
Proof.
  assert (H : forall i, In i [6; 8; 10; 12; 14; 16; 18; 20]%nat ->
                        y (Samples.victoryHand i)
                        = y (Samples.victoryHandThumbOut i)).
  { intros i Hi. cbn [In] in Hi.
    repeat (destruct Hi as [<- | Hi]; [reflexivity|]). destruct Hi. }
  split; [exact H|].
  apply (X3_mode_reads_eight_heights true 0 Samples.victoryHand
           Samples.victoryHandThumbOut [] [Samples.pointHand] initialState H).
Defined.

Lemma addTipDist_nonneg (h : Hand) (acc : R) (idx : nat) :
  0 <= acc -> 0 <= addTipDist h acc idx.
Proof.
  intros H. unfold addTipDist. cbv zeta.
  pose proof (sqrt_pos ((x (h idx) - x (h 0%nat)) * (x (h idx) - x (h 0%nat))
                        + (y (h idx) - y (h 0%nat)) * (y (h idx) - y (h 0%nat)))).
  lra.
Qed.

Lemma avgSpread_nonneg (h : Hand) : 0 <= avgSpread h.
Proof.
  unfold avgSpread, tips. cbn [fold_left].
  assert (0 <= addTipDist h
                 (addTipDist h
                    (addTipDist h (addTipDist h (addTipDist h 0 4) 8) 12) 16) 20).
  { repeat apply addTipDist_nonneg. lra. }
  lra.
Qed.

Lemma ltb_scale (w k a b : R) :
  0 < k -> JS.ltb (w + k * (a - w)) (w + k * (b - w)) = JS.ltb a b.
Proof.
  intros Hk. unfold JS.ltb.
  destruct (Rlt_dec (w + k * (a - w)) (w + k * (b - w))), (Rlt_dec a b);
    try reflexivity; exfalso; nra.
Qed.

Lemma fingerCount_scale (k : R) (h : Hand) :
  0 < k -> fingerCount (scaleHand k h) = fingerCount h.
Proof.
  intros Hk.
  unfold fingerCount, indexUp, middleUp, ringUp, pinkyUp, isFingerUp, scaleHand.
  cbn [y]. now rewrite !ltb_scale by exact Hk.
Qed.

Lemma sqrt_scale (k dx dy : R) :
  0 <= k ->
  sqrt (k * dx * (k * dx) + k * dy * (k * dy)) = k * sqrt (dx * dx + dy * dy).
Proof.
  intros Hk.
  replace (k * dx * (k * dx) + k * dy * (k * dy))
    with (k * k * (dx * dx + dy * dy)) by ring.
  rewrite sqrt_mult_alt by nra. now rewrite sqrt_square.
Qed.

Lemma addTipDist_scale (k : R) (h : Hand) (acc : R) (idx : nat) :
  0 <= k ->
  addTipDist (scaleHand k h) (k * acc) idx = k * addTipDist h acc idx.
Proof.
  intros Hk. unfold addTipDist, scaleHand. cbn [x y].
  replace (x (h 0%nat) + k * (x (h idx) - x (h 0%nat))
           - (x (h 0%nat) + k * (x (h 0%nat) - x (h 0%nat))))
    with (k * (x (h idx) - x (h 0%nat))) by ring.
  replace (y (h 0%nat) + k * (y (h idx) - y (h 0%nat))
           - (y (h 0%nat) + k * (y (h 0%nat) - y (h 0%nat))))
    with (k * (y (h idx) - y (h 0%nat))) by ring.
  rewrite sqrt_scale by exact Hk. ring.
Qed.

Lemma avgSpread_scale (k : R) (h : Hand) :
  0 <= k -> avgSpread (scaleHand k h) = k * avgSpread h.
Proof.
  intros Hk. unfold avgSpread, tips. cbn [fold_left].
  replace 0 with (k * 0) at 1 by ring.
  rewrite !addTipDist_scale by exact Hk. field.
Qed.

(** X6.  The dispersion depends on how large the hand appears: the same
    pose k times as large in the image (k >= 1, the hand closer to the
    camera) has k times the spread, selects the same mode, and gives a
    dispersion that is at least as large. *)
Theorem X6_larger_hand_more_dispersion
  (ready : bool) (t k : R) (h : Hand) (others : list Hand) (s : State) :
  1 <= k ->
  let near := predictWebcam {| refsReady := ready; currentTime := t;
                               detect := Some (scaleHand k h :: others) |} s in
  let far := predictWebcam {| refsReady := ready; currentTime := t;
                              detect := Some (h :: others) |} s in
  avgSpread (scaleHand k h) = k * avgSpread h
  /\ mode (props near) = mode (props far)
  /\ dispersion (props far) <= dispersion (props near).
Proof.
  intros Hk near far.
  assert (Hspread : avgSpread (scaleHand k h) = k * avgSpread h)
    by (apply avgSpread_scale; lra).
  split; [exact Hspread|].
  unfold near, far, predictWebcam. cbn [refsReady currentTime detect].
  destruct (negb ready); [split; [reflexivity | lra]|].
  destruct (JS.neqb (lastVideoTimeRef s) t); [|split; [reflexivity | lra]].
  cbn [interpret onHands props mode dispersion targetMode dispersionFactor].
  split; [now rewrite fingerCount_scale by lra|].
  unfold spreadNorm. rewrite !min_max_clamp, Hspread.
  apply clamp_monotone.
  pose proof (avgSpread_nonneg h). nra.
Qed.

Lemma X6_larger_hand_more_dispersion_witness :
  1 <= 2
  /\ avgSpread (scaleHand 2 Samples.victoryHand)
     = 2 * avgSpread Samples.victoryHand
  /\ mode (props (predictWebcam
                    (Samples.frameOf 0
                       (Some [scaleHand 2 Samples.victoryHand]))
                    initialState)) = 2%Z.
Proof.
  assert (Hk : 1 <= 2) by lra.
  split; [exact Hk|].
  destruct (X6_larger_hand_more_dispersion true 0 2 Samples.victoryHand []
              initialState Hk) as (Hs & Hm & _).
  split; [exact Hs|].
  unfold Samples.frameOf. rewrite Hm.
  assert (Hf : fresh (Samples.frameOf 0 (Some [Samples.victoryHand]))
                 initialState) by (split; [reflexivity | simpl; lra]).
  change (targetMode (predictWebcam
                        (Samples.frameOf 0 (Some [Samples.victoryHand]))
                        initialState) = 2%Z).
  rewrite (predictWebcam_fresh _ _ Hf). cbn [detect Samples.frameOf interpret
    onHands targetMode].
  rewrite fingerCount_extendedCount.
  assert (He : extendedCount Samples.victoryHand = 2%nat).
  { unfold extendedCount, nonThumbFingers. simpl.
    repeat match goal with
           | |- context [Rlt_dec ?a ?b] => destruct (Rlt_dec a b); try lra
           end.
    reflexivity. }
  rewrite He. reflexivity.
Defined.

End AppMore.

(** ** More on the text rasterizer *)

Module TextUtilsMore.
Import THREE TextUtils Wording Vocabulary TextUtilsSpec.

Lemma Q2R_inject_Z (n : Z) : Q2R (inject_Z n) = IZR n.
Proof. unfold Q2R, inject_Z. simpl. field. Qed.

(** The points returned are world points of valid pixels. *)
Lemma generateTextParticles_In
  (c : Context2D) (text : String.string) (size : Q) (n : nat)
  (out : list Vector3) (p : Vector3) :
  let width := Qceiling (measureText c text size) in
  let height := (size * (3 # 2))%Q in
  generateTextParticles (Some c) text size n = Some out ->
  In p out ->
  exists data pixel,
    getImageData c text size width height = Some data
    /\ In pixel (collectValidPixels data width height)
    /\ p = centerFlipScale width height pixel.
Proof.
  intros width height Hout Hin.
  destruct (generateTextParticles_returns c text size n out Hout)
    as (data & Hread).
  fold width in Hread. fold height in Hread.
  rewrite (generateTextParticles_read c text size n data Hread) in Hout.
  fold width in Hout. fold height in Hout.
  set (validPixels := collectValidPixels data width height) in *.
  injection Hout as <-.
  destruct (Nat.eqb_spec (List.length validPixels) 0) as [E | Hne];
    [destruct Hin|].
  apply in_map_iff in Hin. destruct Hin as (i & <- & _).
  assert (Hnil : validPixels <> []).
  { intros E. rewrite E in Hne. simpl in Hne. lia. }
  destruct (samplePoint_centerFlipScale width height validPixels i Hnil)
    as (pixel & Hnth & Hpt).
  exists data, pixel. split; [exact Hread|].
  split; [now apply nth_error_In in Hnth | exact Hpt].
Qed.

(** X7.  Every point returned by the rasterizer lies in the plane z = 0 and
    inside the world rectangle of the bitmap: x in [-0.075 w, 0.075 w) and
    y in (-0.075 h, 0.075 h] for a bitmap of w by h pixels. *)
Theorem X7_points_inside_bitmap_rectangle
  (c : Context2D) (text : String.string) (size : Q) (n : nat)
  (out : list Vector3) (p : Vector3) :
  let width := Qceiling (measureText c text size) in
  let height := (size * (3 # 2))%Q in
  generateTextParticles (Some c) text size n = Some out ->
  In p out ->
  - (0.075 * IZR width) <= x p < 0.075 * IZR width
  /\ - (0.075 * Q2R height) < y p <= 0.075 * Q2R height
  /\ z p = 0.
Proof.
  intros width height Hout Hin.
  destruct (generateTextParticles_In c text size n out p Hout Hin)
    as (data & pixel & _ & Hpix & ->).
  apply collectValidPixels_In in Hpix.
  destruct Hpix as (((j & Hj & Hx) & (k & Hk & Hy) & Hw & Hh) & _).
  fold width in Hw. fold height in Hh.
  assert (Hx0 : 0 <= IZR (px pixel)) by (apply IZR_le; lia).
  assert (Hx1 : IZR (px pixel) < IZR width) by (apply IZR_lt; exact Hw).
  assert (Hy0 : 0 <= IZR (py pixel)) by (apply IZR_le; lia).
  assert (Hy1 : IZR (py pixel) < Q2R height).
  { rewrite <- Q2R_inject_Z. apply Qlt_Rlt. exact Hh. }
  subst width height. unfold centerFlipScale. cbn [x y z].
  repeat split; lra.
Qed.

(** What the rasterizer returns on the sample bitmap. *)
Lemma corner_output (n : nat) :
  generateTextParticles (Some Samples.cornerContext) String.EmptyString 2 n
  = Some (map (samplePoint 3 (2 * (3 # 2))
                 [{| px := 0; py := 0 |}; {| px := 2; py := 2 |}])
              (seq 0 n)).
Proof.
  exact (generateTextParticles_read Samples.cornerContext String.EmptyString 2
           n Samples.cornerData eq_refl).
Qed.

Lemma X7_points_inside_bitmap_rectangle_witness :
  let p := centerFlipScale 3 (2 * (3 # 2)) {| px := 2; py := 2 |} in
  let out :=
    map (samplePoint 3 (2 * (3 # 2))
           [{| px := 0; py := 0 |}; {| px := 2; py := 2 |}]) (seq 0 3) in
  generateTextParticles (Some Samples.cornerContext) String.EmptyString 2 3
  = Some out
  /\ In p out
  /\ - (0.075 * 3) <= x p < 0.075 * 3.
Proof.
  intros p out.
  assert (Hout : generateTextParticles (Some Samples.cornerContext)
                   String.EmptyString 2 3 = Some out) by apply corner_output.
  assert (Hin : In p out).
  { apply in_map_iff. exists 1%nat. split; [|simpl; tauto].
    unfold samplePoint, p, centerFlipScale. cbn [List.length Nat.modulo nth].
    simpl. f_equal; lra. }
  split; [exact Hout|]. split; [exact Hin|].
  apply (X7_points_inside_bitmap_rectangle Samples.cornerContext
           String.EmptyString 2 3 out p Hout Hin).
Defined.

Lemma samplePoint_wrap (width : Z) (height : Q) (vp : list Pixel) (i : nat) :
  samplePoint width height vp (i + List.length vp)
  = samplePoint width height vp i.
Proof.
  unfold samplePoint.
  destruct vp as [|q vp]; [now rewrite Nat.add_0_r|].
  replace ((i + List.length (q :: vp)) mod List.length (q :: vp))%nat
    with (i mod List.length (q :: vp))%nat; [reflexivity|].
  rewrite <- (Nat.mul_1_l (List.length (q :: vp))) at 2.
  now rewrite Nat.Div0.mod_add.
Qed.

(** X8.  Asking for fewer points gives a prefix of what asking for more
    gives, and the output repeats with period M, the number of valid
    pixels: the point at index i + M is the point at index i. *)
Theorem X8_output_prefix_and_period
  (c : Context2D) (text : String.string) (size : Q) (n n' i : nat) :
  let width := Qceiling (measureText c text size) in
  let height := (size * (3 # 2))%Q in
  (n <= n')%nat ->
  generateTextParticles (Some c) text size n
  = option_map (firstn n) (generateTextParticles (Some c) text size n')
  /\ (forall data out,
        getImageData c text size width height = Some data ->
        generateTextParticles (Some c) text size n = Some out ->
        let M := List.length (collectValidPixels data width height) in
        (i + M < n)%nat ->
        nth_error out (i + M) = nth_error out i).
Proof.
  intros width height Hle. split.
  - destruct (getImageData c text size width height) as [data|] eqn:Hread.
    + rewrite !(generateTextParticles_read c text size _ data Hread).
      fold width. fold height. cbn [option_map]. f_equal.
      destruct (List.length (collectValidPixels data width height) =? 0)%nat;
        [now rewrite firstn_nil|].
      apply nth_error_ext. intros k.
      rewrite nth_error_firstn, !nth_error_map, !nth_error_seq.
      destruct (Nat.ltb_spec k n), (Nat.ltb_spec k n'); try reflexivity; lia.
    + unfold generateTextParticles. fold width. fold height.
      now rewrite Hread.
  - intros data out Hread Hout M Hi.
    rewrite (generateTextParticles_read c text size n data Hread) in Hout.
    fold width in Hout. fold height in Hout. fold M in Hout.
    injection Hout as <-.
    destruct (M =? 0)%nat; [now destruct i, M|].
    rewrite !nth_error_map, !nth_error_seq.
    destruct (Nat.ltb_spec (i + M) n), (Nat.ltb_spec i n); try lia.
    cbn [option_map Nat.add]. unfold M. now rewrite samplePoint_wrap.
Qed.

Lemma X8_output_prefix_and_period_witness :
  (3 <= 5)%nat
  /\ generateTextParticles (Some Samples.cornerContext) String.EmptyString 2 3
     = option_map (firstn 3)
         (generateTextParticles (Some Samples.cornerContext)
            String.EmptyString 2 5)
  /\ exists out,
       generateTextParticles (Some Samples.cornerContext) String.EmptyString
         2 3 = Some out
       /\ nth_error out 2 = nth_error out 0.
Proof.
  assert (H : (3 <= 5)%nat) by lia.
  split; [exact H|].
  destruct (X8_output_prefix_and_period Samples.cornerContext
              String.EmptyString 2 3 5 0 H) as [Hpre Hper].
  split; [exact Hpre|].
  eexists. split; [apply corner_output|].
  apply (Hper Samples.cornerData _ eq_refl (corner_output 3)).
  vm_compute. lia.
Defined.

(** *** Scan order *)

Lemma sorted_snoc (l : list Pixel) (q : Pixel) :
  StronglySorted scanBefore l ->
  Forall (fun p => scanBefore p q) l ->
  StronglySorted scanBefore (l ++ [q]).
Proof.
  induction 1 as [|a l Hs IH Ha]; intros Hall; cbn [app].
  - repeat constructor.
  - inversion Hall as [|? ? Haq Hlq]; subst.
    constructor; [now apply IH|].
    apply Forall_app. split; [exact Ha | now constructor].
Qed.

Lemma sorted_NoDup (l : list Pixel) :
  StronglySorted scanBefore l -> NoDup l.
Proof.
  induction 1 as [|a l Hs IH Ha]; constructor; [|exact IH].
  intros Hin. rewrite Forall_forall in Ha. specialize (Ha a Hin).
  unfold scanBefore in Ha. lia.
Qed.

Section Order.
Variable data : list Z.
Variable width : Z.
Variable height : Q.

Lemma scanRow_sorted (fuel : nat) (yy : Z) :
  forall (xx : Z) (acc : list Pixel),
    StronglySorted scanBefore acc ->
    Forall (fun p => scanBefore p {| px := xx; py := yy |}) acc ->
    StronglySorted scanBefore (scanRow data width fuel yy xx acc).
Proof.
  induction fuel as [|k IH]; intros xx acc Hs Hall; cbn [scanRow];
    [exact Hs|].
  destruct (xx <? width)%Z; [|exact Hs].
  assert (Hnext : Forall (fun p => scanBefore p {| px := xx + 2; py := yy |}) acc).
  { eapply Forall_impl; [|exact Hall].
    intros p Hp. unfold scanBefore in *. cbn [px py] in *. lia. }
  destruct (opaque data width xx yy); apply IH; try assumption.
  - now apply sorted_snoc.
  - apply Forall_app. split; [exact Hnext|].
    constructor; [|constructor].
    unfold scanBefore. cbn [px py]. lia.
Qed.

Lemma scanRows_sorted (fuel : nat) :
  forall (yy : Z) (acc : list Pixel),
    StronglySorted scanBefore acc ->
    Forall (fun p => (py p < yy)%Z) acc ->
    StronglySorted scanBefore (scanRows data width height fuel yy acc).
Proof.
  induction fuel as [|k IH]; intros yy acc Hs Hall; cbn [scanRows];
    [exact Hs|].
  destruct (below height yy); [|exact Hs].
  apply IH.
  - apply scanRow_sorted; [exact Hs|].
    eapply Forall_impl; [|exact Hall].
    intros p Hp. cbv beta in Hp. unfold scanBefore. cbn [px py]. lia.
  - apply Forall_forall. intros p Hp.
    apply scanRow_In in Hp; [|lia].
    destruct Hp as [Hp | (Hy & _)]; [|lia].
    rewrite Forall_forall in Hall. specialize (Hall p Hp). lia.
Qed.

Lemma collectValidPixels_sorted :
  StronglySorted scanBefore (collectValidPixels data width height).
Proof.
  unfold collectValidPixels. apply scanRows_sorted; constructor.
Qed.

End Order.

Lemma centerFlipScale_injective (width : Z) (height : Q) :
  Injective (centerFlipScale width height).
Proof.
  intros [x1 y1] [x2 y2] H. unfold centerFlipScale in H. cbn [px py] in H.
  injection H as Hx Hy.
  assert (Ex : IZR x1 = IZR x2) by lra.
  assert (Ey : IZR y1 = IZR y2) by lra.
  apply eq_IZR in Ex, Ey. now subst.
Qed.

Lemma NoDup_firstn {A : Type} (n : nat) (l : list A) :
  NoDup l -> NoDup (firstn n l).
Proof.
  intros H. rewrite <- (firstn_skipn n l) in H.
  now apply NoDup_app_remove_r in H.
Qed.

(** X9.  The valid pixels come in scan order (row by row, left to right)
    without repetition.  When no more points are asked for than there are
    valid pixels, the output is the first particleCount valid pixels in that
    order, each moved to world space, and its points are pairwise
    distinct. *)
Theorem X9_subsample_takes_first_pixels
  (c : Context2D) (text : String.string) (size : Q) (n : nat)
  (data : list Z) :
  let width := Qceiling (measureText c text size) in
  let height := (size * (3 # 2))%Q in
  let validPixels := collectValidPixels data width height in
  getImageData c text size width height = Some data ->
  (n <= List.length validPixels)%nat ->
  StronglySorted scanBefore validPixels
  /\ NoDup validPixels
  /\ generateTextParticles (Some c) text size n
     = Some (map (centerFlipScale width height) (firstn n validPixels))
  /\ NoDup (map (centerFlipScale width height) (firstn n validPixels)).
Proof.
  intros width height validPixels Hread Hn.
  pose proof (collectValidPixels_sorted data width height) as Hs.
  fold validPixels in Hs.
  pose proof (sorted_NoDup _ Hs) as Hnd.
  split; [exact Hs|]. split; [exact Hnd|]. split.
  - rewrite (generateTextParticles_read c text size n data Hread).
    fold width. fold height. fold validPixels. f_equal.
    destruct (Nat.eqb_spec (List.length validPixels) 0) as [E | Hne].
    { assert (n = 0%nat) by lia. subst n. reflexivity. }
    assert (Hnil : validPixels <> []).
    { intros E. rewrite E in Hne. simpl in Hne. lia. }
    apply nth_error_ext. intros i.
    rewrite !nth_error_map, nth_error_seq, nth_error_firstn.
    destruct (Nat.ltb_spec i n) as [Hi | Hi]; [|reflexivity].
    cbn [option_map Nat.add].
    destruct (samplePoint_centerFlipScale width height validPixels i Hnil)
      as (pixel & Hnth & Hpt).
    rewrite Nat.mod_small in Hnth by lia.
    rewrite Hnth, Hpt. reflexivity.
  - apply Injective_map_NoDup.
    + apply centerFlipScale_injective.
    + now apply NoDup_firstn.
Qed.

Lemma X9_subsample_takes_first_pixels_witness :
  getImageData Samples.cornerContext String.EmptyString 2 3 (2 * (3 # 2))
  = Some Samples.cornerData
  /\ (1 <= 2)%nat
  /\ generateTextParticles (Some Samples.cornerContext) String.EmptyString 2 1
     = Some [centerFlipScale 3 (2 * (3 # 2)) {| px := 0; py := 0 |}].
Proof.
  split; [reflexivity|]. split; [lia|].
  apply (X9_subsample_takes_first_pixels Samples.cornerContext
           String.EmptyString 2 1 Samples.cornerData eq_refl).
  vm_compute. lia.
Defined.

(** X20.  On a bitmap that could be read, with M the number of valid
    pixels: the rasterizer returns no point if M = 0; if M > 0 it returns
    exactly particleCount points, and the i-th is validPixels[i mod M] moved
    by the centre/flip/scale rule (z = 0).  The valid pixels are the samples
    of the even grid of the bitmap whose alpha is above 128. *)
Theorem X20_readable_bitmap_wraps_valid_pixels
  (c : Context2D) (text : String.string) (size : Q) (particleCount : nat)
  (data : list Z) :
  let width := Qceiling (measureText c text size) in
  let height := (size * (3 # 2))%Q in
  let validPixels := collectValidPixels data width height in
  let M := List.length validPixels in
  getImageData c text size width height = Some data ->
  exists out,
    generateTextParticles (Some c) text size particleCount = Some out
    /\ (forall p, In p validPixels <->
                  onGrid width height p
                  /\ opaque data width (px p) (py p) = true)
    /\ (M = 0%nat -> out = [])
    /\ ((0 < M)%nat ->
        List.length out = particleCount
        /\ forall i, (i < particleCount)%nat ->
             exists pixel,
               nth_error validPixels (i mod M) = Some pixel
               /\ nth_error out i = Some (centerFlipScale width height pixel)
               /\ z (centerFlipScale width height pixel) = 0).
Proof.
  intros width height validPixels M Hread.
  rewrite (generateTextParticles_read c text size particleCount data Hread).
  fold width. fold height. fold validPixels. fold M.
  eexists. split; [reflexivity|].
  split; [intros p; apply collectValidPixels_In|].
  split.
  - intros ->. reflexivity.
  - intros HM.
    destruct (Nat.eqb_spec M 0) as [E | _]; [lia|].
    split; [now rewrite length_map, length_seq|].
    intros i Hi.
    assert (Hne : validPixels <> []).
    { intros E. unfold M in HM. rewrite E in HM. simpl in HM. lia. }
    destruct (samplePoint_centerFlipScale width height validPixels i Hne)
      as (pixel & Hnth & Hpt).
    exists pixel. split; [exact Hnth|]. split; [|reflexivity].
    rewrite nth_error_map, nth_error_seq.
    destruct (Nat.ltb_spec i particleCount) as [_ | Hge]; [|lia].
    simpl. now rewrite Hpt.
Qed.

Lemma X20_readable_bitmap_wraps_valid_pixels_witness :
  getImageData Samples.cornerContext String.EmptyString 2 3 (2 * (3 # 2))
  = Some Samples.cornerData
  /\ exists out,
       generateTextParticles (Some Samples.cornerContext) String.EmptyString
         2 3 = Some out
       /\ List.length out = 3%nat
       /\ nth_error out 2
          = Some (centerFlipScale 3 (2 * (3 # 2)) {| px := 0; py := 0 |})
       /\ nth_error out 1
          = Some (centerFlipScale 3 (2 * (3 # 2)) {| px := 2; py := 2 |}).
Proof.
  split; [reflexivity|].
  destruct (X20_readable_bitmap_wraps_valid_pixels Samples.cornerContext
              String.EmptyString 2 3 Samples.cornerData eq_refl)
    as (out & Hout & _ & _ & H).
  exists out. split; [exact Hout|].
  destruct (H ltac:(vm_compute; lia)) as [Hlen Hnth].
  split; [exact Hlen|]. split.
  - destruct (Hnth 2%nat ltac:(lia)) as (pixel & Hp & Ho & _).
    vm_compute in Hp. injection Hp as <-. exact Ho.
  - destruct (Hnth 1%nat ltac:(lia)) as (pixel & Hp & Ho & _).
    vm_compute in Hp. injection Hp as <-. exact Ho.
Defined.

End TextUtilsMore.

(** ** More on the particle simulation *)

Module ParticleSystemMore.
Import THREE ParticleSystem Wording FrameSpec Vocabulary THREEFacts
  PhysicsFacts FrameFacts SeekFacts.

(** *** Targets *)

Lemma idle_branch (mode : Z) (hasHand : bool) (targets : Targets) :
  hasHand = false \/ targets mode = None \/ targets mode = Some [] ->
  hasHand && hasTargets mode targets = false.
Proof.
  unfold hasTargets, currentTargets.
  intros [-> | [-> | ->]]; [reflexivity | |]; now rewrite andb_false_r.
Qed.

Lemma idle_on_sphere (a b c e : R) :
  Rsqr a + Rsqr b = 1 -> Rsqr c + Rsqr e = 1 ->
  sqrt (a * 10 * c * (a * 10 * c) + b * 10 * (b * 10)
        + e * 10 * a * (e * 10 * a)) = 10.
Proof.
  unfold Rsqr. intros Hab Hce.
  replace (a * 10 * c * (a * 10 * c) + b * 10 * (b * 10)
           + e * 10 * a * (e * 10 * a))
    with (10 * 10 * (a * a * (c * c + e * e) + b * b)) by ring.
  rewrite Hce, Rmult_1_r, Hab, Rmult_1_r.
  apply sqrt_square. lra.
Qed.

(** X10.  Without a hand, or when the point set of the mode is missing or
    empty, the target of a particle is a point of the idle formation: it
    lies on the sphere of radius 10 around the origin and does not depend on
    the mode, the dispersion or the point sets. *)
Theorem X10_idle_formation_on_sphere
  (mode mode' : Z) (d d' time : R) (targets targets' : Targets)
  (hasHand : bool) (i : nat) :
  hasHand = false \/ targets mode = None \/ targets mode = Some [] ->
  length (targetVec mode d hasHand time targets i) = 10
  /\ targetVec mode d hasHand time targets i
     = targetVec mode' d' false time targets' i.
Proof.
  intros H. unfold targetVec. rewrite (idle_branch _ _ _ H). cbn [andb].
  split; [|reflexivity].
  unfold length. cbn [x y z].
  apply idle_on_sphere; apply sin2_cos2.
Qed.

Lemma X10_idle_formation_on_sphere_witness :
  (true = false \/ TargetsEffect.noTargets 2%Z = None
   \/ TargetsEffect.noTargets 2%Z = Some [])
  /\ length (targetVec 2 1 true 3 TargetsEffect.noTargets 17) = 10.
Proof.
  assert (H : true = false \/ TargetsEffect.noTargets 2%Z = None
              \/ TargetsEffect.noTargets 2%Z = Some [])
    by (right; left; reflexivity).
  split; [exact H|].
  apply (X10_idle_formation_on_sphere 2 0 1 0 3 TargetsEffect.noTargets
           TargetsEffect.noTargets true 17 H).
Defined.

Lemma scaled_bound (s k d : R) :
  -1 <= s <= 1 -> 0 <= k -> Rabs (s * k * d) <= k * Rabs d.
Proof.
  intros Hs Hk. rewrite !Rabs_mult, (Rabs_pos_eq k Hk).
  assert (Hs1 : Rabs s <= 1) by (apply Rabs_le; lra).
  assert (Hq : 0 <= k * Rabs d) by (apply Rmult_le_pos; [lra | apply Rabs_pos]).
  rewrite Rmult_assoc.
  rewrite <- (Rmult_1_l (k * Rabs d)) at 2.
  apply Rmult_le_compat_r; assumption.
Qed.

(** X11.  With a hand and a non-empty point set the target of particle i
    is its text point pts[i mod |pts|] displaced by at most 10 |d| along x
    and y and 15 |d| along z, d being the dispersion; up to dispersion 0.1
    it is the text point itself. *)
Theorem X11_noise_offset_bounded
  (mode : Z) (d time : R) (targets : Targets) (pts : list Vector3) (i : nat) :
  targets mode = Some pts ->
  pts <> [] ->
  let textPoint := nth (i mod List.length pts) pts origin in
  let target := targetVec mode d true time targets i in
  Rabs (x target - x textPoint) <= 10 * Rabs d
  /\ Rabs (y target - y textPoint) <= 10 * Rabs d
  /\ Rabs (z target - z textPoint) <= 15 * Rabs d
  /\ (d <= 0.1 -> target = textPoint).
Proof.
  intros Ht Hne textPoint target.
  assert (Hlen : (0 < List.length pts)%nat).
  { destruct pts; simpl; [congruence | lia]. }
  assert (Htarget :
            target = if JS.ltb 0.1 d
                     then add textPoint
                            {| x := sin (INR i * 0.1 + time) * 10 * d;
                               y := cos (INR i * 0.13 + time) * 10 * d;
                               z := sin (INR i * 0.15 + time) * 15 * d |}
                     else textPoint).
  { unfold target, targetVec, hasTargets, currentTargets. rewrite Ht.
    destruct (Nat.ltb_spec 0 (List.length pts)) as [_ | Hge]; [|lia].
    reflexivity. }
  rewrite Htarget.
  destruct (JS.ltb 0.1 d) eqn:E.
  - cbn [add x y z].
    replace (x textPoint + sin (INR i * 0.1 + time) * 10 * d - x textPoint)
      with (sin (INR i * 0.1 + time) * 10 * d) by ring.
    replace (y textPoint + cos (INR i * 0.13 + time) * 10 * d - y textPoint)
      with (cos (INR i * 0.13 + time) * 10 * d) by ring.
    replace (z textPoint + sin (INR i * 0.15 + time) * 15 * d - z textPoint)
      with (sin (INR i * 0.15 + time) * 15 * d) by ring.
    split; [apply scaled_bound; [apply SIN_bound | lra]|].
    split; [apply scaled_bound; [apply COS_bound | lra]|].
    split; [apply scaled_bound; [apply SIN_bound | lra]|].
    intros Hd. apply JSFacts.ltb_true in E. lra.
  - pose proof (Rabs_pos d).
    rewrite !Rminus_diag, Rabs_R0.
    repeat split; try lra.
Qed.

Lemma X11_noise_offset_bounded_witness :
  Samples.pointTargets 1%Z = Some [Samples.pointTarget]
  /\ [Samples.pointTarget] <> []
  /\ Rabs (z (targetVec 1 1 true 2 Samples.pointTargets 9)
           - z Samples.pointTarget) <= 15 * Rabs 1.
Proof.
  assert (Hne : [Samples.pointTarget] <> []) by discriminate.
  split; [reflexivity|]. split; [exact Hne|].
  destruct (X11_noise_offset_bounded 1 1 2 Samples.pointTargets
              [Samples.pointTarget] 9 eq_refl Hne) as (_ & _ & Hz & _).
  cbn [List.length] in Hz. rewrite Nat.mod_1_r in Hz. exact Hz.
Defined.

(** *** Calls of the frame callback *)

Lemma call_spec (c : Call) (s : Scene) :
  wellFormed s ->
  exists s',
    call c s = Some s'
    /\ wellFormed s'
    /\ (forall i p,
          nth_error (particles s) i = Some p ->
          nth_error (particles s') i
          = Some (if callMounted c
                  then physics (callDispersion c)
                         (targetVec (callMode c) (callDispersion c)
                            (callHasHand c) (callTime c) (callTargets c) i) p
                  else p))
    /\ (callMounted c = true -> coherent s')
    /\ (callMounted c = false -> s' = s).
Proof.
  intros Hwf. unfold call. destruct (callMounted c) eqn:Hm.
  - destruct (useFrame_animated (callMode c) (callDispersion c)
                (callHasHand c) (callTime c) (callTargets c) s Hwf)
      as (s' & Hs' & Hwf' & _ & s0 & Ha & Hpart & Hpos & _).
    exists s'. split; [exact Hs'|]. split; [exact Hwf'|].
    destruct Hwf as (Hlen & _). destruct Hwf' as (Hlen' & _).
    split; [|split; [|discriminate]].
    + intros i p Hp. rewrite Hpart.
      assert (Hi : (i < PARTICLE_COUNT)%nat).
      { rewrite <- Hlen. apply nth_error_Some. congruence. }
      apply (an_particle_in _ _ _ _ _ _ _ _ _ Ha); [lia | exact Hp].
    + intros _ i p Hp.
      assert (Hi : (i < PARTICLE_COUNT)%nat).
      { rewrite <- Hlen'. apply nth_error_Some. congruence. }
      rewrite Hpos. rewrite Hpart in Hp.
      apply (an_position_in _ _ _ _ _ _ _ _ _ Ha); [lia | exact Hp].
  - exists s. unfold useFrame. cbn [negb].
    split; [reflexivity|]. split; [exact Hwf|].
    split; [auto|]. split; [discriminate | reflexivity].
Qed.

Lemma physics_targetIndex (d : R) (t : Vector3) (p : Particle) :
  targetIndex (physics d t p) = targetIndex p.
Proof. reflexivity. Qed.

Lemma play_spec (calls : list Call) :
  forall s : Scene,
    wellFormed s ->
    exists s',
      play calls s = Some s'
      /\ wellFormed s'
      /\ (forall i p,
            nth_error (particles s) i = Some p ->
            exists p', nth_error (particles s') i = Some p'
                       /\ targetIndex p' = targetIndex p)
      /\ (coherent s \/ Exists (fun c => callMounted c = true) calls ->
          coherent s').
Proof.
  induction calls as [|c calls IH]; intros s Hwf; cbn [play].
  - exists s. split; [reflexivity|]. split; [exact Hwf|].
    split; [intros i p Hp; now exists p|].
    intros [H | H]; [exact H | inversion H].
  - destruct (call_spec c s Hwf) as (s1 & Hs1 & Hwf1 & Hp1 & Hc1 & Hu1).
    rewrite Hs1.
    destruct (IH s1 Hwf1) as (s' & Hs' & Hwf' & Hp' & Hc').
    exists s'. split; [exact Hs'|]. split; [exact Hwf'|]. split.
    + intros i p Hp. destruct (Hp' i _ (Hp1 i p Hp)) as (p' & Hnth & Hti).
      exists p'. split; [exact Hnth|]. rewrite Hti.
      destruct (callMounted c); reflexivity.
    + intros H. apply Hc'.
      destruct (callMounted c) eqn:Hm; [left; now apply Hc1|].
      rewrite (Hu1 eq_refl).
      destruct H as [H | H]; [now left|].
      inversion H as [? ? Hm' | ? ? Hrest]; subst; [congruence | now right].
Qed.

(** X12.  However the frame callback is called after the component has
    built its scene, it never throws, the scene keeps its PARTICLE_COUNT
    particles and its buffer sizes, particle i keeps the target index i,
    and once a call has found the mesh mounted the position buffer holds the
    positions of the particles. *)
Theorem X12_frames_keep_the_scene_sound
  (random : nat -> Vector3) (calls : list Call) :
  exists s',
    play calls (initialScene random) = Some s'
    /\ wellFormed s'
    /\ (forall i, (i < PARTICLE_COUNT)%nat ->
          exists p, nth_error (particles s') i = Some p /\ targetIndex p = i)
    /\ (Exists (fun c => callMounted c = true) calls -> coherent s').
Proof.
  destruct (play_spec calls (initialScene random)
              (ParticleSystemSpec.wellFormed_initialScene random))
    as (s' & Hs' & Hwf' & Hti & Hco).
  exists s'. split; [exact Hs'|]. split; [exact Hwf'|]. split.
  - intros i Hi.
    destruct (Hti i _ (ParticleSystemSpec.nth_error_initialScene random i Hi))
      as (p & Hp & Hidx).
    exists p. split; [exact Hp | exact Hidx].
  - intros H. apply Hco. now right.
Qed.

(** *** Speed *)

Lemma dot_le_lengths (a b : Vector3) : dot a b <= length a * length b.
Proof.
  pose proof (length_nonneg a) as Ha. pose proof (length_nonneg b) as Hb.
  destruct (Rle_dec (dot a b) 0) as [Hneg | Hpos].
  { pose proof (Rmult_le_pos _ _ Ha Hb). lra. }
  apply Rsqr_incr_0_var; [|now apply Rmult_le_pos].
  unfold Rsqr.
  replace (length a * length b * (length a * length b))
    with (length a * length a * (length b * length b)) by ring.
  rewrite !length_sq. unfold dot.
  pose proof (Rle_0_sqr (x a * y b - y a * x b)) as H1.
  pose proof (Rle_0_sqr (x a * z b - z a * x b)) as H2.
  pose proof (Rle_0_sqr (y a * z b - z a * y b)) as H3.
  unfold Rsqr in H1, H2, H3. nra.
Qed.

Lemma length_add (a b : Vector3) : length (add a b) <= length a + length b.
Proof.
  pose proof (length_nonneg a) as Ha. pose proof (length_nonneg b) as Hb.
  apply Rsqr_incr_0_var; [|lra].
  unfold Rsqr. rewrite length_sq.
  pose proof (dot_le_lengths a b) as Hd.
  pose proof (length_sq a) as Ea. pose proof (length_sq b) as Eb.
  unfold dot in *. cbn [add x y z]. nra.
Qed.

(** The speed after a step, against the speed before it. *)
Lemma physics_speed (d : R) (t : Vector3) (p : Particle) :
  0 <= speedCap d ->
  length (velocity (physics d t p))
  <= 0.92 * (length (velocity p) + speedCap d).
Proof.
  intros Hms.
  destruct (physics_seekUpdated d t p) as (force & _ & _ & Hlen & Hv & _).
  fold (speedCap d) in Hlen. specialize (Hlen Hms).
  rewrite Hv, length_multiplyScalar, Rabs_pos_eq by lra.
  pose proof (length_add (velocity p) force) as Hadd.
  assert (Hf : length force <= speedCap d).
  { rewrite Hlen. apply Rmin_r. }
  lra.
Qed.

Lemma play_speed (calls : list Call) :
  forall s : Scene,
    wellFormed s ->
    Forall (fun c => 0 <= callDispersion c <= 1) calls ->
    (forall i p, nth_error (particles s) i = Some p ->
                 length (velocity p) <= 23) ->
    exists s',
      play calls s = Some s'
      /\ forall i p, nth_error (particles s') i = Some p ->
                     length (velocity p) <= 23.
Proof.
  induction calls as [|c calls IH]; intros s Hwf Hall Hs; cbn [play].
  - exists s. auto.
  - inversion Hall as [|? ? Hc Hrest]; subst.
    destruct (call_spec c s Hwf) as (s1 & Hs1 & Hwf1 & Hp1 & _ & _).
    rewrite Hs1. apply (IH s1 Hwf1 Hrest).
    intros i p1 Hnth.
    destruct (nth_error (particles s) i) as [p|] eqn:Hp.
    + rewrite (Hp1 i p Hp) in Hnth. injection Hnth as <-.
      specialize (Hs i p Hp).
      destruct (callMounted c); [|exact Hs].
      assert (Hms : 0 <= speedCap (callDispersion c) <= 2)
        by (unfold speedCap; lra).
      pose proof (physics_speed (callDispersion c)
                    (targetVec (callMode c) (callDispersion c) (callHasHand c)
                       (callTime c) (callTargets c) i) p ltac:(lra)).
      lra.
    + exfalso. apply nth_error_None in Hp.
      assert (i < List.length (particles s1))%nat
        by (apply nth_error_Some; congruence).
      destruct Hwf as (E & _). destruct Hwf1 as (E1 & _). lia.
Qed.

(** X13.  With dispersions in [0,1], as the interpreter delivers them, no
    particle of the scene ever travels more than 23 units in one frame:
    every velocity has length at most 23 after any sequence of calls. *)
Theorem X13_speed_bounded
  (random : nat -> Vector3) (calls : list Call) :
  Forall (fun c => 0 <= callDispersion c <= 1) calls ->
  exists s',
    play calls (initialScene random) = Some s'
    /\ forall i p, nth_error (particles s') i = Some p ->
                   length (velocity p) <= 23.
Proof.
  intros Hall.
  apply (play_speed calls (initialScene random)
           (ParticleSystemSpec.wellFormed_initialScene random) Hall).
  intros i p Hp.
  assert (Hi : (i < PARTICLE_COUNT)%nat).
  { destruct (ParticleSystemSpec.wellFormed_initialScene random) as (E & _).
    rewrite <- E. apply nth_error_Some. congruence. }
  rewrite (ParticleSystemSpec.nth_error_initialScene random i Hi) in Hp.
  injection Hp as <-. cbn [velocity]. rewrite length_origin. lra.
Qed.

Lemma X13_speed_bounded_witness :
  Forall (fun c => 0 <= callDispersion c <= 1)
    [Samples.openCall; Samples.openCall]
  /\ exists s',
       play [Samples.openCall; Samples.openCall] Samples.restScene = Some s'
       /\ forall i p, nth_error (particles s') i = Some p ->
                      length (velocity p) <= 23.
Proof.
  assert (H : Forall (fun c => 0 <= callDispersion c <= 1)
                [Samples.openCall; Samples.openCall]).
  { constructor; [simpl; lra|]. constructor; [simpl; lra | constructor]. }
  split; [exact H|].
  apply (X13_speed_bounded (fun _ => origin)
           [Samples.openCall; Samples.openCall] H).
Defined.

(** *** Particles do not interact *)

(** X14.  A particle's step reads nothing of the other particles: two
    scenes that hold the same particle at index i hold the same particle at
    index i after a frame with the same inputs, and the same three floats
    for it in the position buffer. *)
Theorem X14_particles_do_not_interact
  (mode : Z) (d : R) (hasHand : bool) (time : R) (targets : Targets)
  (s1 s2 : Scene) (i : nat) :
  wellFormed s1 ->
  wellFormed s2 ->
  nth_error (particles s1) i = nth_error (particles s2) i ->
  exists s1' s2',
    useFrame mode d hasHand time targets true s1 = Some s1'
    /\ useFrame mode d hasHand time targets true s2 = Some s2'
    /\ nth_error (particles s1') i = nth_error (particles s2') i
    /\ ((i < PARTICLE_COUNT)%nat ->
        JS.load (positions s1') (i * 3) = JS.load (positions s2') (i * 3)
        /\ JS.load (positions s1') (i * 3 + 1)
           = JS.load (positions s2') (i * 3 + 1)
        /\ JS.load (positions s1') (i * 3 + 2)
           = JS.load (positions s2') (i * 3 + 2)).
Proof.
  intros Hwf1 Hwf2 Hsame.
  destruct (useFrame_animated mode d hasHand time targets s1 Hwf1)
    as (s1' & Hs1 & Hwf1' & _ & t1 & Ha1 & Hpart1 & Hpos1 & _).
  destruct (useFrame_animated mode d hasHand time targets s2 Hwf2)
    as (s2' & Hs2 & Hwf2' & _ & t2 & Ha2 & Hpart2 & Hpos2 & _).
  exists s1', s2'. split; [exact Hs1|]. split; [exact Hs2|].
  destruct Hwf1 as (E1 & _). destruct Hwf2 as (E2 & _).
  destruct Hwf1' as (E1' & _). destruct Hwf2' as (E2' & _).
  destruct (Nat.lt_ge_cases i PARTICLE_COUNT) as [Hi | Hi].
  - destruct (nth_error (particles s2) i) as [p|] eqn:Hp.
    2:{ apply nth_error_None in Hp. lia. }
    pose proof (an_particle_in _ _ _ _ _ _ _ _ _ Ha1 i p
                  (conj (Nat.le_0_l i) Hi) Hsame) as H1.
    pose proof (an_particle_in _ _ _ _ _ _ _ _ _ Ha2 i p
                  (conj (Nat.le_0_l i) Hi) Hp) as H2.
    rewrite Hpart1, Hpart2, Hpos1, Hpos2, H1, H2.
    split; [reflexivity|]. intros _.
    destruct (an_position_in _ _ _ _ _ _ _ _ _ Ha1 i _
                (conj (Nat.le_0_l i) Hi) H1) as (A1 & A2 & A3).
    destruct (an_position_in _ _ _ _ _ _ _ _ _ Ha2 i _
                (conj (Nat.le_0_l i) Hi) H2) as (B1 & B2 & B3).
    rewrite A1, A2, A3, B1, B2, B3. auto.
  - split; [|intros Hlt; exfalso; apply (Nat.lt_irrefl i);
             now apply Nat.lt_le_trans with PARTICLE_COUNT].
    assert (N1 : nth_error (particles s1') i = None)
      by (apply nth_error_None; rewrite E1'; exact Hi).
    assert (N2 : nth_error (particles s2') i = None)
      by (apply nth_error_None; rewrite E2'; exact Hi).
    now rewrite N1, N2.
Qed.

Lemma X14_particles_do_not_interact_witness :
  wellFormed Samples.restScene
  /\ wellFormed Samples.crowdedScene
  /\ nth_error (particles Samples.restScene) 7
     = nth_error (particles Samples.crowdedScene) 7
  /\ exists s1' s2',
       useFrame 1 0 true 0 Samples.pointTargets true Samples.restScene
       = Some s1'
       /\ useFrame 1 0 true 0 Samples.pointTargets true Samples.crowdedScene
          = Some s2'
       /\ nth_error (particles s1') 7 = nth_error (particles s2') 7.
Proof.
  assert (H7 : (7 < PARTICLE_COUNT)%nat) by (unfold PARTICLE_COUNT; lia).
  assert (Hw1 : wellFormed Samples.restScene)
    by apply ParticleSystemSpec.wellFormed_initialScene.
  assert (Hw2 : wellFormed Samples.crowdedScene)
    by apply ParticleSystemSpec.wellFormed_initialScene.
  assert (Hsame : nth_error (particles Samples.restScene) 7
                  = nth_error (particles Samples.crowdedScene) 7).
  { unfold Samples.restScene, Samples.crowdedScene.
    now rewrite !ParticleSystemSpec.nth_error_initialScene by exact H7. }
  split; [exact Hw1|]. split; [exact Hw2|]. split; [exact Hsame|].
  destruct (X14_particles_do_not_interact 1 0 true 0 Samples.pointTargets
              Samples.restScene Samples.crowdedScene 7 Hw1 Hw2 Hsame)
    as (s1' & s2' & Hs1 & Hs2 & Hnth & _).
  exists s1', s2'. auto.
Defined.

(** *** Geometry of the seek *)

Lemma physics_shift (d : R) (target t : Vector3) (p : Particle) :
  physics d (add target t) (shiftParticle t p)
  = shiftParticle t (physics d target p).
Proof.
  unfold physics, shiftParticle. cbn [position velocity targetIndex].
  replace (sub (add target t) (add (position p) t))
    with (sub target (position p)) by (apply vec_eq; simpl; ring).
  apply particle_eq; cbn [position velocity targetIndex]; try reflexivity.
  apply vec_eq; simpl; ring.
Qed.

(** X15.  The seek does not depend on where the origin is: moving the
    target and the particle by the same vector moves the whole trajectory by
    that vector and leaves every velocity as it is. *)
Theorem X15_seek_translation_invariant
  (d : R) (target t : Vector3) (p : Particle) (n : nat) :
  seekFor d (add target t) n (shiftParticle t p)
  = shiftParticle t (seekFor d target n p).
Proof.
  induction n as [|n IH]; cbn [seekFor]; [reflexivity|].
  rewrite IH. apply physics_shift.
Qed.

(** X16.  A particle started with zero velocity toward a fixed target never
    leaves the straight line through its start and the target: at every
    tick its offset to the target and its velocity are multiples of
    target - start. *)
Theorem X16_seek_from_rest_stays_on_line
  (d : R) (target : Vector3) (p0 : Particle) (n : nat) :
  velocity p0 = origin ->
  exists c w,
    position (seekFor d target n p0)
    = sub target (multiplyScalar (sub target (position p0)) c)
    /\ velocity (seekFor d target n p0)
       = multiplyScalar (sub target (position p0)) w.
Proof.
  intros Hv.
  pose proof (seekFor_onLine d target (sub target (position p0)) (1, 0) p0 n
                (onLine_start target p0 Hv)) as [Hp Hw].
  eexists. eexists. split; [exact Hp | exact Hw].
Qed.

Lemma X16_seek_from_rest_stays_on_line_witness :
  velocity Samples.restParticle = origin
  /\ y (position (Samples.axisRun 40)) = 0
  /\ z (velocity (Samples.axisRun 40)) = 0.
Proof.
  split; [reflexivity|].
  destruct (X16_seek_from_rest_stays_on_line 0 Samples.axisTarget
              Samples.restParticle 40 eq_refl) as (c & w & Hp & Hw).
  unfold Samples.axisRun. rewrite Hp, Hw. simpl. split; ring.
Defined.

(** *** The targets the component loads *)


Lemma loadTargets_cases
  (ctx : option TextUtils.Context2D) (mode : Z) (pts : list Vector3) :
  TargetsEffect.loadTargets ctx mode = Some pts ->
  textMode mode
  /\ exists text size,
       TextUtils.generateTextParticles ctx text size PARTICLE_COUNT = Some pts.
Proof.
  unfold TargetsEffect.loadTargets, textMode.
  destruct (TextUtils.generateTextParticles ctx TargetsEffect.TEXT_1 80
              PARTICLE_COUNT) as [pts1|] eqn:E1; [|discriminate].
  destruct (TextUtils.generateTextParticles ctx TargetsEffect.TEXT_2 30
              PARTICLE_COUNT) as [pts2|] eqn:E2.
  - destruct (TextUtils.generateTextParticles ctx TargetsEffect.TEXT_3_SAFE 30
                PARTICLE_COUNT) as [pts3|] eqn:E3;
      unfold TargetsEffect.assign, TargetsEffect.noTargets.
    + destruct (Z.eqb_spec mode 3) as [-> | H3].
      { intros H. injection H as <-. split; [auto|]. eauto. }
      destruct (Z.eqb_spec mode 2) as [-> | H2].
      { intros H. injection H as <-. split; [auto|]. eauto. }
      destruct (Z.eqb_spec mode 1) as [-> | H1]; [|discriminate].
      intros H. injection H as <-. split; [auto|]. eauto.
    + destruct (Z.eqb_spec mode 2) as [-> | H2].
      { intros H. injection H as <-. split; [auto|]. eauto. }
      destruct (Z.eqb_spec mode 1) as [-> | H1]; [|discriminate].
      intros H. injection H as <-. split; [auto|]. eauto.
  - unfold TargetsEffect.assign, TargetsEffect.noTargets.
    destruct (Z.eqb_spec mode 1) as [-> | H1]; [|discriminate].
    intros H. injection H as <-. split; [auto|]. eauto.
Qed.

Lemma loadTargets_unmapped (ctx : option TextUtils.Context2D) (mode : Z) :
  ~ textMode mode -> TargetsEffect.loadTargets ctx mode = None.
Proof.
  intros H.
  destruct (TargetsEffect.loadTargets ctx mode) as [pts|] eqn:E;
    [|reflexivity].
  exfalso. apply H. now apply loadTargets_cases in E.
Qed.

Lemma loadTargets_no_context (mode : Z) (pts : list Vector3) :
  TargetsEffect.loadTargets None mode = Some pts -> pts = [].
Proof.
  intros H. apply loadTargets_cases in H.
  destruct H as (_ & text & size & H). cbn in H. now injection H as <-.
Qed.




(** X18.  Where the rasterizer had no 2D context, and for a mode outside
    1, 2, 3, the loaded targets give the simulator nothing to form: with or
    without a hand the target of every particle is its point of the idle
    formation, on the sphere of radius 10. *)
Theorem X18_no_context_or_unmapped_mode_is_idle
  (ctx : option TextUtils.Context2D) (mode : Z) (d time : R)
  (hasHand : bool) (i : nat) :
  ctx = None \/ ~ textMode mode ->
  let target := targetVec mode d hasHand time (TargetsEffect.loadTargets ctx) i in
  target = targetVec mode d false time TargetsEffect.noTargets i
  /\ length target = 10.
Proof.
  intros H target.
  assert (Hcase : hasHand = false
                  \/ TargetsEffect.loadTargets ctx mode = None
                  \/ TargetsEffect.loadTargets ctx mode = Some []).
  { right. destruct H as [-> | Hm].
    - destruct (TargetsEffect.loadTargets None mode) as [pts|] eqn:E;
        [right | left; reflexivity].
      now rewrite (loadTargets_no_context mode pts E).
    - left. now apply loadTargets_unmapped. }
  unfold target, targetVec. rewrite (idle_branch _ _ _ Hcase). cbn [andb].
  split; [reflexivity|].
  unfold length. cbn [x y z]. apply idle_on_sphere; apply sin2_cos2.
Qed.

Lemma X18_no_context_or_unmapped_mode_is_idle_witness :
  (Some Samples.cornerContext = None \/ ~ textMode 0)
  /\ length (targetVec 0 1 true 5
               (TargetsEffect.loadTargets (Some Samples.cornerContext)) 11)
     = 10.
Proof.
  assert (H : Some Samples.cornerContext = None \/ ~ textMode 0).
  { right. unfold textMode. lia. }
  split; [exact H|].
  apply (X18_no_context_or_unmapped_mode_is_idle (Some Samples.cornerContext)
           0 1 5 true 11 H).
Defined.

End ParticleSystemMore.

(** ** Loading and camera state *)

Module AppShellMore.
Import AppShell.

Lemma handle_monotone (s : Shell) (e : Event) :
  (loading s = false -> loading (handle s e) = false)
  /\ (cameraActive s = true -> cameraActive (handle s e) = true)
  /\ (showsError s = true -> showsError (handle s e) = true)
  /\ (landmarker s = true -> landmarker (handle s e) = true).
Proof.
  unfold showsError.
  destruct e as [[|] | [|] [|]]; cbn; auto.
Qed.

Lemma after_app (es es' : list Event) (s : Shell) :
  after (es ++ es') s = after es' (after es s).
Proof. apply fold_left_app. Qed.

Lemma after_monotone (es : list Event) :
  forall s : Shell,
    (loading s = false -> loading (after es s) = false)
    /\ (cameraActive s = true -> cameraActive (after es s) = true)
    /\ (showsError s = true -> showsError (after es s) = true)
    /\ (landmarker s = true -> landmarker (after es s) = true).
Proof.
  induction es as [|e es IH]; intros s.
  - cbn. auto.
  - change (after (e :: es) s) with (after es (handle s e)).
    destruct (handle_monotone s e) as (H1 & H2 & H3 & H4).
    destruct (IH (handle s e)) as (I1 & I2 & I3 & I4).
    repeat split; auto.
Qed.

(** X19.  Whatever sequence of model loads and camera starts happens, the
    overlay only moves forward: the loading notice, once gone, does not come
    back; the camera, once active, stays active and its button stays hidden;
    an error banner, once shown, is never taken down, not even by a later
    successful camera start; and the button and the loading notice are never
    shown together. *)
Theorem X19_overlay_only_moves_forward (es later : list Event) :
  let s := after es initialShell in
  let s' := after (es ++ later) initialShell in
  (showsLoading s = false -> showsLoading s' = false)
  /\ (cameraActive s = true -> cameraActive s' = true /\ showsButton s' = false)
  /\ (showsError s = true -> showsError s' = true)
  /\ (showsButton s' && showsLoading s' = false).
Proof.
  intros s s'. unfold s'. rewrite after_app. fold s.
  destruct (after_monotone later s) as (H1 & H2 & H3 & _).
  unfold showsLoading, showsButton.
  split; [exact H1|]. split.
  - intros Hc. rewrite (H2 Hc). auto.
  - split; [exact H3|].
    destruct (cameraActive (after later s)), (loading (after later s));
      reflexivity.
Qed.

End AppShellMore.
